(** * LogWatcher (apache_log_ingester.py): trace grouping and provenance enrichment

    A shallow embedding of [LogWatcher] from
    [html/n8n-logger/apache_log_ingester.py].

    Conventions of the embedding:
    - a Python [str] is a [string] of 8-bit characters; the character classes
      of [str.strip], [str.split], [str.splitlines], [\d] and the
      case-insensitive flag are the ASCII ones;
    - [time.time()] readings are rationals (seconds);
    - calls that leave the process (grep, git, the file system, the webhook)
      are answered by a [world] record; every call is written to a log kept
      next to the caches, so that "how often was the query invoked" can be
      stated;
    - a Python exception is the [Raise] outcome of the [M] monad. *)

From Stdlib Require Import ZArith NArith QArith Lqa Ascii String List Bool Lia.
From Stdlib Require Import DecimalString.
From stdpp Require Import base gmap strings.
Import ListNotations.
Local Open Scope string_scope.
Local Open Scope list_scope.

(** ** Python string operations *)

Definition code (c : ascii) : N := N_of_ascii c.

(** [str.isspace] on one ASCII character: TAB..CR, FS..US and the blank. *)
Definition is_space (c : ascii) : bool :=
  ((9 <=? code c) && (code c <=? 13) || (28 <=? code c) && (code c <=? 32))%N.

Definition is_digit (c : ascii) : bool :=
  ((48 <=? code c) && (code c <=? 57))%N.

(** The class [[a-f0-9]]. *)
Definition is_hex_lower (c : ascii) : bool :=
  (is_digit c || (97 <=? code c) && (code c <=? 102))%N.

Definition lower_char (c : ascii) : ascii :=
  if ((65 <=? code c) && (code c <=? 90))%N then ascii_of_N (code c + 32) else c.

Fixpoint lower (s : string) : string :=
  match s with
  | EmptyString => EmptyString
  | String c r => String (lower_char c) (lower r)
  end.

(** [s.lstrip(chars)] / [s.rstrip(chars)] for a character class [p]. *)
Fixpoint lstrip_by (p : ascii -> bool) (s : string) : string :=
  match s with
  | EmptyString => EmptyString
  | String c r => if p c then lstrip_by p r else s
  end.

Fixpoint rstrip_by (p : ascii -> bool) (s : string) : string :=
  match s with
  | EmptyString => EmptyString
  | String c r =>
      match rstrip_by p r with
      | EmptyString => if p c then EmptyString else String c EmptyString
      | r' => String c r'
      end
  end.

Definition strip_by (p : ascii -> bool) (s : string) : string :=
  rstrip_by p (lstrip_by p s).

(** [s.strip()] *)
Definition strip (s : string) : string := strip_by is_space s.

(** [s.startswith(p)] *)
Definition startswith (s p : string) : bool := String.prefix p s.

(** [s[n:]] *)
Fixpoint drop_str (n : nat) (s : string) : string :=
  match n, s with
  | O, _ => s
  | S n', String _ r => drop_str n' r
  | S _, EmptyString => EmptyString
  end.

(** [s[:n]] *)
Fixpoint take_str (n : nat) (s : string) : string :=
  match n, s with
  | S n', String c r => String c (take_str n' r)
  | _, _ => EmptyString
  end.

(** [p in s] *)
Fixpoint contains (p s : string) : bool :=
  String.prefix p s ||
  match s with
  | EmptyString => false
  | String _ r => contains p r
  end.

(** The longest prefix of characters in class [p], and what follows it. *)
Fixpoint span_by (p : ascii -> bool) (s : string) : string * string :=
  match s with
  | EmptyString => (EmptyString, EmptyString)
  | String c r =>
      if p c then let '(a, b) := span_by p r in (String c a, b)
      else (EmptyString, s)
  end.

(** [s.split()[0]] when there is a first field. *)
Definition first_field (s : string) : string :=
  fst (span_by (fun c => negb (is_space c)) (lstrip_by is_space s)).

(** [sep.join(l)] *)
Fixpoint join (sep : string) (l : list string) : string :=
  match l with
  | [] => EmptyString
  | [x] => x
  | x :: r => x +:+ sep +:+ join sep r
  end.

(** Line boundaries of [str.splitlines]: LF, VT, FF, CR, FS, GS, RS
    (and CR LF as one boundary). *)
Definition is_linebreak (c : ascii) : bool :=
  ((10 <=? code c) && (code c <=? 13) || (28 <=? code c) && (code c <=? 30))%N.

(** [splitlines_from cur s]: [cur] is the line being read, reversed. *)
Fixpoint splitlines_from (cur : list ascii) (s : string) : list string :=
  match s with
  | EmptyString =>
      match cur with
      | [] => []
      | _ => [string_of_list_ascii (rev cur)]
      end
  | String c r =>
      if is_linebreak c then
        string_of_list_ascii (rev cur) ::
        match r with
        | String c' r' =>
            if ((code c =? 13) && (code c' =? 10))%N
            then splitlines_from [] r' else splitlines_from [] r
        | EmptyString => []
        end
      else splitlines_from (c :: cur) r
  end.

(** [s.splitlines()] *)
Definition splitlines (s : string) : list string := splitlines_from [] s.

(** [int(s)] for a string of ASCII digits. *)
Definition int_of_digits (s : string) : Z :=
  fold_left (fun acc c => acc * 10 + Z.of_N (code c - 48))%Z
            (list_ascii_of_string s) 0%Z.

(** [str(n)] for a non-negative [n]. *)
Definition str_of_int (n : Z) : string :=
  NilZero.string_of_uint (N.to_uint (Z.to_N n)).

(** [os.path.dirname] (posixpath): the part up to and including the last
    slash, with its trailing slashes removed unless it consists of slashes
    only. *)
Definition is_slash (c : ascii) : bool := (code c =? 47)%N.

Fixpoint has_slash (s : string) : bool :=
  match s with
  | EmptyString => false
  | String c r => is_slash c || has_slash r
  end.

(** [p[:p.rfind('/') + 1]] *)
Fixpoint head_of (p : string) : string :=
  match p with
  | EmptyString => EmptyString
  | String c r =>
      if has_slash r then String c (head_of r)
      else if is_slash c then String c EmptyString
      else EmptyString
  end.

Fixpoint all_slashes (s : string) : bool :=
  match s with
  | EmptyString => true
  | String c r => is_slash c && all_slashes r
  end.

Definition dirname (p : string) : string :=
  let head := head_of p in
  if negb (String.eqb head "") && negb (all_slashes head)
  then rstrip_by is_slash head
  else head.

(** ** The error-start pattern

    [re.compile(r'(PHP (Fatal error|Warning|Notice)|\[error\])', re.IGNORECASE)],
    used with [search]: one of four literals occurs somewhere in the line,
    letters compared without case. *)
Definition error_start_pattern (line : string) : bool :=
  let l := lower line in
  contains "php fatal error" l || contains "php warning" l ||
  contains "php notice" l || contains "[error]" l.

(** ** tail_log: the trace grouper

    The generator is a machine that is fed the successive results of
    [f.readline()]; with each result comes the reading [time.time()] gives
    in that iteration (unused where the code does not read the clock).
    [Outer] is the loop of line 123, [Inner start] the loop of line 139 with
    [fcntl_start_time = start]. *)
Inductive loop : Type :=
| Outer
| Inner (fcntl_start_time : Q).

Record tail_state : Type := {
  current_trace : list string;
  at_loop : loop
}.

Definition fcntl_wait_time : Q := 2.

Definition nl : string := String (ascii_of_N 10) EmptyString.

(** One [readline] of [tail_log]: the traces yielded and the next state. *)
Definition tail_step (st : tail_state) (line : string) (now : Q)
  : list string * tail_state :=
  match at_loop st with
  | Outer =>
      if String.eqb line "" then ([], st)
      else
        let line := strip line in
        let '(out, trace) :=
          if error_start_pattern line then
            match current_trace st with
            | [] => ([], current_trace st)
            | _ => ([join nl (current_trace st)], [])
            end
          else ([], current_trace st) in
        (out, {| current_trace := trace ++ [line]; at_loop := Inner now |})
  | Inner start =>
      if String.eqb line "" then
        if Qle_bool fcntl_wait_time (now - start)
        then ([join nl (current_trace st)],
              {| current_trace := []; at_loop := Outer |})
        else ([], st)
      else
        ([], {| current_trace := current_trace st ++ [strip line];
                at_loop := Inner now |})
  end.

(** Feeding a finite sequence of reads. *)
Fixpoint tail_run (st : tail_state) (reads : list (string * Q))
  : list string * tail_state :=
  match reads with
  | [] => ([], st)
  | (line, now) :: rest =>
      let '(out, st') := tail_step st line now in
      let '(outs, st'') := tail_run st' rest in
      (out ++ outs, st'')
  end.

(** The state in which the [with] block is entered (line 122). *)
Definition tail_init : tail_state :=
  {| current_trace := []; at_loop := Outer |}.


(** ** Exceptions, outcomes and the outside world *)

(** The exception classes that matter to the code: [CalledProcessError]
    (the command ran and exited non-zero), [OSError] (the command or file
    could not be used at all: FileNotFoundError, PermissionError, ...) and
    [ValueError]. *)
Inductive exn : Type :=
| CalledProcessError
| OSError
| ValueError.

Definition exn_eqb (a b : exn) : bool :=
  match a, b with
  | CalledProcessError, CalledProcessError => true
  | OSError, OSError => true
  | ValueError, ValueError => true
  | _, _ => false
  end.

Inductive res (A : Type) : Type :=
| Return (a : A)
| Raise (e : exn).
Arguments Return {A} a.
Arguments Raise {A} e.

(** The dictionary built by [get_git_blame]. *)
Record blame_info : Type := {
  author : option string;
  email : option string;
  commit : option string;
  summary : option string;
  is_local_changes : bool
}.

(** The dictionary returned by [get_project_info]. *)
Record project_info : Type := {
  file : string;
  line : Z;
  vhost : option string;
  git_remote : string;
  error_line : string;
  blame : option blame_info
}.

(** What one command of a shell line printed (stdout and stderr together,
    as [subprocess.getoutput] captures them) and its exit status. *)
Record sh_result : Type := {
  sh_output : string;
  sh_status : Z
}.

Record world : Type := {
  (** [subprocess.getoutput("grep -l '<search_path>' <vhost_dir>/* || true")] *)
  grep_l : string -> string -> string;
  (** [os.path.abspath] *)
  abspath : string -> string;
  (** [os.path.relpath(path, start)] for a non-empty [path] *)
  relpath : string -> string -> string;
  (** [check_output(["git", "rev-parse", "--show-toplevel"], cwd)] *)
  git_rev_parse : string -> res string;
  (** [cd '<dir>'] in the shell *)
  sh_cd : string -> sh_result;
  (** [git config --get remote.origin.url] run in [dir] *)
  sh_git_config : string -> sh_result;
  (** [check_output(["git", "blame", "-L", "n,n", "--porcelain", rel], cwd)] *)
  git_blame : string -> string -> Z -> res string;
  (** [check_output(["git", "diff", rel], cwd)] *)
  git_diff : string -> string -> res string;
  (** [datetime.fromtimestamp(os.path.getmtime(f)).isoformat()] *)
  last_modified_iso : string -> res string;
  (** [session.post(url, json={error_line, error_detail}, timeout=2)] *)
  session_post : string -> string -> option project_info -> res unit;
  (** [os.path.isfile] *)
  isfile : string -> bool;
  (** [open(path, 'r')] *)
  open_r : string -> res unit
}.

(** The log of calls that left the process. *)
Inductive call : Type :=
| CallGrep (vhost_dir search_path : string)
| CallRevParse (cwd : string)
| CallRemote (dir_path : string)
| CallBlame (cwd rel_path : string) (line_number : Z)
| CallDiff (cwd rel_path : string)
| CallMtime (file_path : string)
| CallPost (url : string).

Definition is_grep (c : call) : bool :=
  match c with CallGrep _ _ => true | _ => false end.
Definition is_rev_parse (c : call) : bool :=
  match c with CallRevParse _ => true | _ => false end.
Definition is_remote (c : call) : bool :=
  match c with CallRemote _ => true | _ => false end.
Definition is_blame (c : call) : bool :=
  match c with CallBlame _ _ _ => true | _ => false end.

(** ** cachetools.TTLCache

    The library is not part of the repository; this is its documented
    behaviour. An item lives until [ttl] after it was stored; the items are
    kept oldest first; storing a new key into a full cache drops the oldest
    items. *)
Record TTLCache (V : Type) : Type := {
  maxsize : nat;
  ttl : Q;
  links : list (string * V * Q)
}.
Arguments maxsize {V} _.
Arguments ttl {V} _.
Arguments links {V} _.

Section TTLCache.
Context {V : Type}.

Definition live (now : Q) (it : string * V * Q) : bool :=
  negb (Qle_bool (snd it) now).

Definition has_key (key : string) (it : string * V * Q) : bool :=
  String.eqb key (fst (fst it)).

(** [cache[key]] when [key in cache], [None] when not: the item is there
    and has not expired. *)
Definition cache_get (c : TTLCache V) (key : string) (now : Q) : option V :=
  match List.find (has_key key) (links c) with
  | Some (_, v, expires) => if live now (key, v, expires) then Some v else None
  | None => None
  end.

(** [cache[key] = v] *)
Definition cache_set (c : TTLCache V) (key : string) (v : V) (now : Q)
  : TTLCache V :=
  let alive := List.filter (live now) (links c) in
  let others := List.filter (fun it => negb (has_key key it)) alive in
  let kept :=
    if existsb (has_key key) alive then others
    else skipn (S (List.length others) - maxsize c) others in
  {| maxsize := maxsize c; ttl := ttl c;
     links := kept ++ [(key, v, now + ttl c)%Q] |}.

Definition cache_new (size : nat) (t : Q) : TTLCache V :=
  {| maxsize := size; ttl := t; links := [] |}.
End TTLCache.

(** ** The watcher object and the monad of its methods *)

Record config_t : Type := {
  log_file : option string;
  enabled : option bool;
  n8n_url : option string
}.

Record watcher : Type := {
  config : config_t;
  vhost_cache : gmap string (option string);
  git_root_cache : TTLCache (option string);
  git_remote_cache : TTLCache string;
  git_blame_cache : TTLCache (option blame_info);
  calls : list call
}.

(** [__init__] with a given configuration. *)
Definition watcher_init (cfg : config_t) : watcher :=
  {| config := cfg;
     vhost_cache := ∅;
     git_root_cache := cache_new 1000 86400;
     git_remote_cache := cache_new 1000 86400;
     git_blame_cache := cache_new 5000 86400;
     calls := [] |}.

Definition M (A : Type) : Type := watcher -> res A * watcher.

Definition ret {A} (a : A) : M A := fun st => (Return a, st).
Definition raise {A} (e : exn) : M A := fun st => (Raise e, st).

Definition bind {A B} (m : M A) (f : A -> M B) : M B :=
  fun st =>
    match m st with
    | (Return a, st') => f a st'
    | (Raise e, st') => (Raise e, st')
    end.

Notation "x <- m ;; k" := (bind m (fun x => k))
  (at level 100, m at next level, right associativity).
Notation "m ;;; k" := (bind m (fun _ => k))
  (at level 100, right associativity).

(** [try: m except <class>: h] *)
Definition try_except {A} (m : M A) (handled : exn -> bool) (h : M A) : M A :=
  fun st =>
    match m st with
    | (Raise e, st') => if handled e then h st' else (Raise e, st')
    | r => r
    end.

(** An external call: logged, then answered by the world. *)
Definition log_call (c : call) (st : watcher) : watcher :=
  {| config := config st; vhost_cache := vhost_cache st;
     git_root_cache := git_root_cache st;
     git_remote_cache := git_remote_cache st;
     git_blame_cache := git_blame_cache st;
     calls := calls st ++ [c] |}.

Definition external {A} (c : call) (r : res A) : M A :=
  fun st => (r, log_call c st).

Definition get_state : M watcher := fun st => (Return st, st).

Definition set_vhost_cache (key : string) (v : option string) : M unit :=
  fun st =>
    (Return tt, {| config := config st;
                   vhost_cache := <[key := v]> (vhost_cache st);
                   git_root_cache := git_root_cache st;
                   git_remote_cache := git_remote_cache st;
                   git_blame_cache := git_blame_cache st;
                   calls := calls st |}).

Definition set_git_root_cache (key : string) (v : option string) (now : Q)
  : M unit :=
  fun st =>
    (Return tt, {| config := config st; vhost_cache := vhost_cache st;
                   git_root_cache := cache_set (git_root_cache st) key v now;
                   git_remote_cache := git_remote_cache st;
                   git_blame_cache := git_blame_cache st;
                   calls := calls st |}).

Definition set_git_remote_cache (key : string) (v : string) (now : Q)
  : M unit :=
  fun st =>
    (Return tt, {| config := config st; vhost_cache := vhost_cache st;
                   git_root_cache := git_root_cache st;
                   git_remote_cache := cache_set (git_remote_cache st) key v now;
                   git_blame_cache := git_blame_cache st;
                   calls := calls st |}).

Definition set_git_blame_cache (key : string) (v : option blame_info) (now : Q)
  : M unit :=
  fun st =>
    (Return tt, {| config := config st; vhost_cache := vhost_cache st;
                   git_root_cache := git_root_cache st;
                   git_remote_cache := git_remote_cache st;
                   git_blame_cache := cache_set (git_blame_cache st) key v now;
                   calls := calls st |}).

(** ** find_vhost_for_path *)

(** The [while True] loop of lines 184-193. Each round shortens
    [search_path], so a fuel of one more than its length is enough
    ([vhost_loop_fuel] below); [None] means the fuel ran out. *)
Fixpoint vhost_loop (w : world) (vhost_dir : string) (fuel : nat)
    (search_path : string) (st : watcher) : option (option string * watcher) :=
  match fuel with
  | O => None
  | S fuel' =>
      let st' := log_call (CallGrep vhost_dir search_path) st in
      let result := strip (grep_l w vhost_dir search_path) in
      if negb (String.eqb result "") then Some (Some result, st')
      else
        let parent_path := dirname search_path in
        if String.eqb parent_path search_path || String.eqb parent_path "/"
        then Some (None, st')
        else vhost_loop w vhost_dir fuel' parent_path st'
  end.

Definition default_vhost_dir : string := "/etc/apache2/sites-enabled".

Definition find_vhost_for_path (w : world) (file_path vhost_dir : string)
  : M (option string) :=
  st <- get_state ;;
  match vhost_cache st !! file_path with
  | Some cached => ret cached
  | None =>
      let search_path := dirname file_path in
      found_vhost <-
        (fun st =>
           match vhost_loop w vhost_dir (S (String.length search_path))
                            search_path st with
           | Some (found, st') => (Return found, st')
           | None => (Return None, st)
           end) ;;
      set_vhost_cache file_path found_vhost ;;;
      ret found_vhost
  end.

(** ** get_git_blame *)

Definition empty_blame : blame_info :=
  {| author := None; email := None; commit := None; summary := None;
     is_local_changes := false |}.

Definition with_author (b : blame_info) (v : string) : blame_info :=
  {| author := Some v; email := email b; commit := commit b;
     summary := summary b; is_local_changes := is_local_changes b |}.
Definition with_email (b : blame_info) (v : string) : blame_info :=
  {| author := author b; email := Some v; commit := commit b;
     summary := summary b; is_local_changes := is_local_changes b |}.
Definition with_commit (b : blame_info) (v : string) : blame_info :=
  {| author := author b; email := email b; commit := Some v;
     summary := summary b; is_local_changes := is_local_changes b |}.
Definition with_summary (b : blame_info) (v : string) : blame_info :=
  {| author := author b; email := email b; commit := commit b;
     summary := Some v; is_local_changes := is_local_changes b |}.
Definition with_local_changes (b : blame_info) : blame_info :=
  {| author := author b; email := email b; commit := commit b;
     summary := summary b; is_local_changes := true |}.

(** [re.match(r"^0{8,40}", line)] *)
Definition zero_commit (ln : string) : bool := startswith ln "00000000".

Fixpoint all_chars (p : ascii -> bool) (s : string) : bool :=
  match s with
  | EmptyString => true
  | String c r => p c && all_chars p r
  end.

(** [re.match(r"^[a-f0-9]{40}", line)] *)
Definition hex40 (ln : string) : bool :=
  let h := take_str 40 ln in
  Nat.eqb (String.length h) 40 && all_chars is_hex_lower h.

Definition is_angle (c : ascii) : bool := ((code c =? 60) || (code c =? 62))%N.

(** The body of the loop over [blame_output.splitlines()] (lines 292-301). *)
Definition blame_line (b : blame_info) (ln : string) : blame_info :=
  let b := if zero_commit ln then with_local_changes b else b in
  if startswith ln "author " then with_author b (drop_str 7 ln)
  else if startswith ln "author-mail " then
    with_email b (strip_by is_angle (drop_str 12 ln))
  else if startswith ln "summary " then with_summary b (drop_str 8 ln)
  else if hex40 ln then with_commit b (take_str 8 (first_field ln))
  else b.

Definition parse_blame (blame_output : string) : blame_info :=
  fold_left blame_line (splitlines blame_output) empty_blame.

(** [hunk_header_pattern.match(diff_line)] for
    [^@@ -\d+(?:,\d+)? \+(\d+)(?:,(\d+))? @@]: groups 1 and 2. *)
Definition digits_then (s : string) : option (string * string) :=
  match span_by is_digit s with
  | (EmptyString, _) => None
  | r => Some r
  end.

Definition opt_count (s : string) : option string * string :=
  if startswith s "," then
    match digits_then (drop_str 1 s) with
    | Some (d, r) => (Some d, r)
    | None => (None, s)
    end
  else (None, s).

Definition hunk_header_pattern (diff_line : string)
  : option (string * option string) :=
  if startswith diff_line "@@ -" then
    match digits_then (drop_str 4 diff_line) with
    | Some (_, r1) =>
        let '(_, r2) := opt_count r1 in
        if startswith r2 " +" then
          match digits_then (drop_str 2 r2) with
          | Some (g1, r3) =>
              let '(g2, r4) := opt_count r3 in
              if startswith r4 " @@" then Some (g1, g2) else None
          | None => None
          end
        else None
    | None => None
    end
  else None.

(** The loop over [diff_output.splitlines()] (lines 316-329); the result is
    [line_diff]. [in_hunk] is set to [True] at the top of every round, so
    the range test of line 323 is never read. *)
Fixpoint diff_scan (line_number current_line : Z) (diff_lines : list string)
  : option string :=
  match diff_lines with
  | [] => None
  | diff_line :: rest =>
      let in_hunk := true in
      match hunk_header_pattern diff_line with
      | Some (g1, g2) =>
          let start_line := int_of_digits g1 in
          let line_count :=
            match g2 with Some g => int_of_digits g | None => 1%Z end in
          let in_hunk :=
            ((start_line <=? line_number)
             && (line_number <? start_line + line_count))%Z in
          diff_scan line_number start_line rest
      | None =>
          if in_hunk && (startswith diff_line "+" || startswith diff_line "-"
                         || startswith diff_line " ")
          then
            if (current_line =? line_number)%Z then Some diff_line
            else if negb (startswith diff_line "-")
                 then diff_scan line_number (current_line + 1)%Z rest
                 else diff_scan line_number current_line rest
          else diff_scan line_number current_line rest
      end
  end.

Definition find_line_diff (diff_output : string) (line_number : Z)
  : option string :=
  diff_scan line_number 0%Z (splitlines diff_output).

(** Lines 332-334. *)
Definition uncommitted_summary (last_modified : string)
    (line_diff : option string) : string :=
  let s := "[Uncommitted changes] Last modified: " +:+ last_modified in
  match line_diff with
  | Some d => if String.eqb d "" then s else s +:+ " | Diff line: " +:+ strip d
  | None => s
  end.

(** [os.path.relpath(file_path, repo_path)]: an empty path is refused. *)
Definition os_path_relpath (w : world) (file_path repo_path : string)
  : M string :=
  if String.eqb file_path "" then raise ValueError
  else ret (relpath w file_path repo_path).

Definition is_called_process_error (e : exn) : bool :=
  exn_eqb e CalledProcessError.

Definition get_git_blame (w : world) (file_path : string) (line_number : Z)
    (repo_path : option string) : M (option blame_info) :=
  match repo_path with
  | None => ret None
  | Some repo =>
      if String.eqb repo "" then ret None
      else
        try_except
          (rel_path <- os_path_relpath w file_path repo ;;
           blame_output <-
             external (CallBlame repo rel_path line_number)
                      (git_blame w repo rel_path line_number) ;;
           let b := parse_blame blame_output in
           if is_local_changes b then
             diff_output <-
               external (CallDiff repo rel_path) (git_diff w repo rel_path) ;;
             let line_diff := find_line_diff diff_output line_number in
             last_modified <-
               external (CallMtime file_path) (last_modified_iso w file_path) ;;
             ret (Some (with_summary b
                          (uncommitted_summary last_modified line_diff)))
           else ret (Some b))
          is_called_process_error
          (ret None)
  end.

(** ** get_project_info *)

(** [re.search(r'in (.+?) on line (\d+)', error_line)]: groups 1 and 2 of
    the leftmost match. [lazy_group acc s] has the group hold [acc]
    (reversed) and tries to close it in front of [s], else lets it take one
    more character, which must not be a newline. *)
Fixpoint lazy_group (acc : list ascii) (s : string) : option (string * string) :=
  match s with
  | EmptyString => None
  | String c r =>
      let number := fst (span_by is_digit (drop_str 9 s)) in
      if negb (Nat.eqb (List.length acc) 0) && startswith s " on line "
         && negb (String.eqb number "")
      then Some (string_of_list_ascii (rev acc), number)
      else if (code c =? 10)%N then None
      else lazy_group (c :: acc) r
  end.

Definition match_here (s : string) : option (string * string) :=
  if startswith s "in " then lazy_group [] (drop_str 3 s) else None.

Fixpoint file_line_search (s : string) : option (string * string) :=
  match match_here s with
  | Some m => Some m
  | None =>
      match s with
      | EmptyString => None
      | String _ r => file_line_search r
      end
  end.

(** [subprocess.getoutput] drops one final newline of what was printed. *)
Fixpoint chomp (s : string) : string :=
  match s with
  | EmptyString => EmptyString
  | String c EmptyString => if (code c =? 10)%N then EmptyString else s
  | String c r => String c (chomp r)
  end.

(** [getoutput("cd '<dir>' && git config --get remote.origin.url || echo 'unknown'")]:
    [git config] runs when [cd] succeeded, [echo] when either failed; all
    that was printed is captured. *)
Definition remote_command (w : world) (dir_path : string) : string :=
  let cd := sh_cd w dir_path in
  let printed :=
    if (sh_status cd =? 0)%Z then
      let cfg := sh_git_config w dir_path in
      if (sh_status cfg =? 0)%Z then sh_output cd +:+ sh_output cfg
      else sh_output cd +:+ sh_output cfg +:+ "unknown" +:+ nl
    else sh_output cd +:+ "unknown" +:+ nl in
  chomp printed.

(** Lines 219-230. *)
Definition resolve_root (w : world) (dir_path : string) (now : Q)
  : M (option string) :=
  st <- get_state ;;
  match cache_get (git_root_cache st) dir_path now with
  | Some v => ret v
  | None =>
      repo_root <-
        try_except
          (out <- external (CallRevParse dir_path) (git_rev_parse w dir_path) ;;
           ret (Some (strip out)))
          is_called_process_error
          (ret None) ;;
      set_git_root_cache dir_path repo_root now ;;;
      ret repo_root
  end.

(** Lines 232-238. *)
Definition resolve_remote (w : world) (dir_path : string) (now : Q)
  : M string :=
  st <- get_state ;;
  match cache_get (git_remote_cache st) dir_path now with
  | Some v => ret v
  | None =>
      out <- external (CallRemote dir_path) (Return (remote_command w dir_path)) ;;
      let git_remote := strip out in
      set_git_remote_cache dir_path git_remote now ;;;
      ret git_remote
  end.

(** Lines 240-249. *)
Definition resolve_blame (w : world) (file_path : string) (line_number : Z)
    (repo_root : option string) (now : Q) : M (option blame_info) :=
  let blame_key := file_path +:+ ":" +:+ str_of_int line_number in
  b <- get_git_blame w file_path line_number repo_root ;;
  set_git_blame_cache blame_key b now ;;;
  st <- get_state ;;
  match cache_get (git_blame_cache st) blame_key now with
  | Some cached => ret cached
  | None =>
      b <- get_git_blame w file_path line_number repo_root ;;
      set_git_blame_cache blame_key b now ;;;
      ret b
  end.

(** [now] is the reading of the caches' timer during the call. *)
Definition get_project_info (w : world) (error_line : string) (now : Q)
  : M (option project_info) :=
  match file_line_search error_line with
  | None => ret None
  | Some (g1, g2) =>
      let file_path := strip g1 in
      let line_number := int_of_digits g2 in
      let dir_path := abspath w (dirname file_path) in
      found <- find_vhost_for_path w file_path default_vhost_dir ;;
      repo_root <- resolve_root w dir_path now ;;
      remote <- resolve_remote w dir_path now ;;
      b <- resolve_blame w file_path line_number repo_root now ;;
      ret (Some {| file := file_path;
                   line := line_number;
                   vhost := match found with
                            | Some v => if String.eqb v "" then None
                                        else Some (strip v)
                            | None => None
                            end;
                   git_remote := remote;
                   error_line := strip error_line;
                   blame := b |})
  end.

(** ** send_to_n8n *)
Definition send_to_n8n (w : world) (error_trace : string) (now : Q) : M unit :=
  st <- get_state ;;
  match n8n_url (config st) with
  | None => ret tt
  | Some url =>
      if String.eqb url "" then ret tt
      else
        try_except
          (error_detail <- get_project_info w error_trace now ;;
           external (CallPost url) (session_post w url error_trace error_detail))
          (fun _ => true)
          (ret tt)
  end.

(** ** tail_log, before the loop (lines 115-120)

    [Return false]: the generator returns without a trace;
    [Return true]: the file is open and the loop of [tail_step] starts. *)
Definition tail_log_open (w : world) (cfg : config_t) : res bool :=
  match log_file cfg with
  | None => Return false
  | Some path =>
      if String.eqb path "" || negb (isfile w path) then Return false
      else
        match open_r w path with
        | Return _ => Return true
        | Raise e => Raise e
        end
  end.

(** ** Vocabulary of the statements *)

(** A sequence of reads taken in the inner loop never meets the flush test:
    every empty read comes less than [fcntl_wait_time] after the last line
    ([start] is the time of the last line so far). *)
Fixpoint quiet (start : Q) (reads : list (string * Q)) : Prop :=
  match reads with
  | [] => True
  | (l, now) :: rest =>
      if String.eqb l "" then (now - start < fcntl_wait_time)%Q /\ quiet start rest
      else quiet now rest
  end.

(** The lines among the reads, as the grouper stores them. *)
Fixpoint lines_of (reads : list (string * Q)) : list string :=
  match reads with
  | [] => []
  | (l, _) :: rest =>
      if String.eqb l "" then lines_of rest else strip l :: lines_of rest
  end.

(** The clock reading taken with the last line among the reads. *)
Fixpoint last_line_time (start : Q) (reads : list (string * Q)) : Q :=
  match reads with
  | [] => start
  | (l, now) :: rest =>
      if String.eqb l "" then last_line_time start rest
      else last_line_time now rest
  end.

(** At the top of the outer loop the accumulator is empty. *)
Definition outer_empty (st : tail_state) : Prop :=
  at_loop st = Outer -> current_trace st = [].

(** The reads of the grouping example: a line that is no error start, an
    error line, a stack frame, then silence. *)
Definition example_reads : list (string * Q) :=
  [("INFO ok" +:+ nl, 0%Q);
   ("PHP Fatal error: X in a.php on line 10" +:+ nl, 0.1%Q);
   ("  stack frame 1" +:+ nl, 0.2%Q);
   ("", 1%Q);
   ("", 2.5%Q)].

(** Lines of a diff that the scan looks at, and those among them that exist
    in the new file. *)
Definition body_line (l : string) : bool :=
  startswith l "+" || startswith l "-" || startswith l " ".

Definition counted (l : string) : bool :=
  body_line l && negb (startswith l "-").

(** The value of [current_line] after the scan has passed [ls]. *)
Fixpoint advance (c : Z) (ls : list string) : Z :=
  match ls with
  | [] => c
  | l :: r => advance (if counted l then c + 1 else c)%Z r
  end.

Definition no_header (l : string) : Prop := hunk_header_pattern l = None.

(** A diff that adds [foo();] as line 7, and one that puts [foo();] and
    [z] in the place of [y], so that [foo();] is again line 7 of the new
    file. *)
Definition simple_diff : string :=
  join nl ["diff --git a/x.php b/x.php"; "index 1111111..2222222 100644";
           "--- a/x.php"; "+++ b/x.php"; "@@ -5,3 +5,4 @@";
           " a"; " b"; "+foo();"; " c"] +:+ nl.

Definition replaced_diff : string :=
  join nl ["diff --git a/x.php b/x.php"; "index 1111111..2222222 100644";
           "--- a/x.php"; "+++ b/x.php"; "@@ -5,3 +5,4 @@";
           " a"; " b"; "-y"; "+foo();"; "+z"] +:+ nl.

(** The value of [current_line] after the scan has passed [ls], hunk
    headers among them: a header sets it to its new-file start, a context
    or added line adds one, any other line leaves it. *)
Fixpoint counter (c : Z) (ls : list string) : Z :=
  match ls with
  | [] => c
  | l :: r =>
      counter (match hunk_header_pattern l with
               | Some (g1, _) => int_of_digits g1
               | None => if counted l then c + 1 else c
               end)%Z r
  end.

(** No line of [pre] that begins with [+], [-] or a blank is met with the
    counter at [line_number] (the counter being [c] in front of [pre]). *)
Definition never_hit (line_number c : Z) (pre : list string) : Prop :=
  forall pre1 l pre2,
    pre = pre1 ++ l :: pre2 -> body_line l = true ->
    counter c pre1 <> line_number.

(** The same as a test. *)
Fixpoint never_hit_b (line_number c : Z) (pre : list string) : bool :=
  match pre with
  | [] => true
  | l :: r =>
      (negb (body_line l) || negb (c =? line_number)%Z) &&
      never_hit_b line_number (counter c [l]) r
  end.

(** A diff of two hunks; [foo();] is line 7 of the new file, in the
    second. *)
Definition two_hunk_diff : string :=
  join nl ["diff --git a/x.php b/x.php"; "index 1111111..2222222 100644";
           "--- a/x.php"; "+++ b/x.php";
           "@@ -1,2 +1,2 @@"; " x"; "-old"; "+new";
           "@@ -5,3 +5,4 @@"; " a"; " b"; "+foo();"; " c"] +:+ nl.

(** An external command answered, or ran and exited non-zero: it did not
    fail in any other way. *)
Definition answers {A : Type} (r : res A) : Prop :=
  match r with
  | Return _ => True
  | Raise e => e = CalledProcessError
  end.

(** *** A sample world

    A site under [/var/www/site], which is a repository without a remote;
    line 7 of its files is an uncommitted edit, the other lines belong to
    commit [abcdef12...]. *)
Definition committed_blame : string :=
  join nl ["abcdef1234abcdef1234abcdef1234abcdef1234 3 3 1";
           "author Ada"; "author-mail <ada@example.org>";
           "summary Add index page"; "filename app/index.php"] +:+ nl.

Definition uncommitted_blame : string :=
  join nl ["0000000000000000000000000000000000000000 7 7 1";
           "author Not Committed Yet"; "author-mail <not.committed.yet>";
           "summary Version of app/index.php from app/index.php";
           "filename app/index.php"] +:+ nl.

Definition sample_world : world :=
  {| grep_l := fun _ search_path =>
       if String.eqb search_path "/var/www/site"
       then "/etc/apache2/sites-enabled/site.conf" +:+ nl else "";
     abspath := fun p => p;
     relpath := fun path start => drop_str (S (String.length start)) path;
     git_rev_parse := fun cwd =>
       if startswith cwd "/var/www/site"
       then Return ("/var/www/site" +:+ nl) else Raise CalledProcessError;
     sh_cd := fun _ => {| sh_output := ""; sh_status := 0 |};
     sh_git_config := fun _ => {| sh_output := ""; sh_status := 1 |};
     git_blame := fun _ _ n =>
       if (n =? 7)%Z then Return uncommitted_blame else Return committed_blame;
     git_diff := fun _ _ => Return simple_diff;
     last_modified_iso := fun _ => Return "2024-05-01T10:00:00";
     session_post := fun _ _ _ => Return tt;
     isfile := fun _ => true;
     open_r := fun _ => Return tt |}.

Definition with_git_blame (w : world) (f : string -> string -> Z -> res string)
  : world :=
  {| grep_l := grep_l w; abspath := abspath w; relpath := relpath w;
     git_rev_parse := git_rev_parse w; sh_cd := sh_cd w;
     sh_git_config := sh_git_config w; git_blame := f;
     git_diff := git_diff w; last_modified_iso := last_modified_iso w;
     session_post := session_post w; isfile := isfile w; open_r := open_r w |}.

Definition with_git_diff (w : world) (f : string -> string -> res string)
  : world :=
  {| grep_l := grep_l w; abspath := abspath w; relpath := relpath w;
     git_rev_parse := git_rev_parse w; sh_cd := sh_cd w;
     sh_git_config := sh_git_config w; git_blame := git_blame w;
     git_diff := f; last_modified_iso := last_modified_iso w;
     session_post := session_post w; isfile := isfile w; open_r := open_r w |}.

Definition with_git_config (w : world) (f : string -> sh_result) : world :=
  {| grep_l := grep_l w; abspath := abspath w; relpath := relpath w;
     git_rev_parse := git_rev_parse w; sh_cd := sh_cd w;
     sh_git_config := f; git_blame := git_blame w;
     git_diff := git_diff w; last_modified_iso := last_modified_iso w;
     session_post := session_post w; isfile := isfile w; open_r := open_r w |}.

Definition with_open (w : world) (f : string -> res unit) : world :=
  {| grep_l := grep_l w; abspath := abspath w; relpath := relpath w;
     git_rev_parse := git_rev_parse w; sh_cd := sh_cd w;
     sh_git_config := sh_git_config w; git_blame := git_blame w;
     git_diff := git_diff w; last_modified_iso := last_modified_iso w;
     session_post := session_post w; isfile := isfile w; open_r := f |}.

Definition sample_config : config_t :=
  {| log_file := Some "/var/log/apache2/error.log";
     enabled := Some true;
     n8n_url := Some "http://n8n.local/webhook/php-errors" |}.

Definition sample_watcher : watcher := watcher_init sample_config.

Definition sample_trace (n : string) : string :=
  "PHP Warning: undefined index in /var/www/site/app/index.php on line " +:+ n.

(** The repository is gone while its root is still known: git cannot even
    be started in it. *)
Definition vanished_repo_world : world :=
  with_git_blame sample_world (fun _ _ _ => Raise OSError).

(** [git config] stops on a broken configuration file, with a message. *)
Definition broken_config_world : world :=
  with_git_config sample_world (fun _ =>
    {| sh_output := "fatal: bad config line 1 in file .git/config" +:+ nl;
       sh_status := 128 |}).

(** The log file is there but may not be read. *)
Definition unreadable_log_world : world :=
  with_open sample_world (fun _ => Raise OSError).

(** The command of line 236 failed without a message. *)
Definition remote_fails_silently (w : world) (dir_path : string) : Prop :=
  sh_output (sh_cd w dir_path) = "" /\
  (sh_status (sh_cd w dir_path) <> 0%Z \/
   sh_output (sh_git_config w dir_path) = "" /\
   sh_status (sh_git_config w dir_path) <> 0%Z).

(** How often a kind of call occurs in the log. *)
Definition count (p : call -> bool) (st : watcher) : nat :=
  List.length (List.filter p (calls st)).

(** The diff of the file cannot be produced (git exits non-zero). *)
Definition failing_diff_world : world :=
  with_git_diff sample_world (fun _ _ => Raise CalledProcessError).

(** The log grew by one blame query and by no grep, rev-parse or remote
    query. *)
Definition one_more_blame (st st' : watcher) : Prop :=
  count is_grep st' = count is_grep st /\
  count is_rev_parse st' = count is_rev_parse st /\
  count is_remote st' = count is_remote st /\
  count is_blame st' = S (count is_blame st).

(** The watcher after a first enrichment of a trace that names line 3. *)
Definition after_first_call : watcher :=
  snd (get_project_info sample_world (sample_trace "3") 0 sample_watcher).

(** ** Vocabulary of the further statements *)

(** The accumulator is empty at the top of the outer loop and non-empty in
    the inner loop. *)
Definition well_grouped (st : tail_state) : Prop :=
  match at_loop st with
  | Outer => current_trace st = []
  | Inner _ => current_trace st <> []
  end.


(** The [j]-th ancestor of a path: [dirname] applied [j] times. *)
Fixpoint ancestor (j : nat) (p : string) : string :=
  match j with
  | O => p
  | S j' => ancestor j' (dirname p)
  end.

(** [c] is not the newline character. *)
Definition not_newline (c : ascii) : bool := negb (code c =? 10)%N.

(** The string does not begin with a digit. *)
Definition no_leading_digit (s : string) : bool :=
  match s with
  | EmptyString => true
  | String c _ => negb (is_digit c)
  end.

Definition is_post (c : call) : bool :=
  match c with CallPost _ => true | _ => false end.

(** Whatever state a method of the watcher starts in, the calls it adds to
    the log all satisfy [P]. *)
Definition logs_only (P : call -> Prop) {A : Type} (m : M A) : Prop :=
  forall st, exists l, calls (snd (m st)) = calls st ++ l /\ Forall P l.

(** The reported commit, if any, is eight characters of [0-9a-f]. *)
Definition commit_ok (b : blame_info) : Prop :=
  match commit b with
  | Some c =>
      String.length c = 8 /\ all_chars is_hex_lower c = true
  | None => True
  end.


(** ** load_config, config_needs_reload and run

    The watcher together with the three attributes that the claims did not
    need. The configuration file is taken to hold a JSON object; what
    [json.load] makes of it at a given moment is a [config_t] or an
    exception. *)
Record service : Type := {
  core : watcher;
  config_path : string;
  reload_interval : Q;
  last_config_load_time : Q
}.

Definition with_config (st : watcher) (cfg : config_t) : watcher :=
  {| config := cfg; vhost_cache := vhost_cache st;
     git_root_cache := git_root_cache st;
     git_remote_cache := git_remote_cache st;
     git_blame_cache := git_blame_cache st;
     calls := calls st |}.

Definition with_core (svc : service) (st : watcher) : service :=
  {| core := st; config_path := config_path svc;
     reload_interval := reload_interval svc;
     last_config_load_time := last_config_load_time svc |}.

(** [load_config]: [config_file] is the outcome of opening and parsing the
    file now, [now] the reading of [time.time()] after a successful load.
    Any exception is caught and leaves everything as it was. *)
Definition load_config (config_file : res config_t) (now : Q) (svc : service)
  : service :=
  match config_file with
  | Return cfg =>
      {| core := with_config (core svc) cfg;
         config_path := config_path svc;
         reload_interval := reload_interval svc;
         last_config_load_time := now |}
  | Raise _ => svc
  end.

(** [config_needs_reload], [now] being the reading of [time.time()]. *)
Definition config_needs_reload (svc : service) (now : Q) : bool :=
  Qle_bool (reload_interval svc) (now - last_config_load_time svc).


(** One trace arriving in [run], with what the environment answers while
    it is handled: the clock read by [config_needs_reload], the
    configuration file and the clock read by [load_config], and the timer
    of the caches. *)
Record arrival : Type := {
  error_trace : string;
  checked_at : Q;
  config_file : res config_t;
  loaded_at : Q;
  cache_time : Q
}.

(** [self.config.get("enabled", False)] as a condition. *)
Definition sending_enabled (cfg : config_t) : bool :=
  match enabled cfg with
  | Some true => true
  | _ => false
  end.

(** The body of the [for] loop of [run] (lines 158-165). *)
Definition run_step (w : world) (svc : service) (a : arrival) : res service :=
  let svc :=
    if config_needs_reload svc (checked_at a)
    then load_config (config_file a) (loaded_at a) svc
    else svc in
  if negb (sending_enabled (config (core svc))) then Return svc
  else
    match send_to_n8n w (error_trace a) (cache_time a) (core svc) with
    | (Return _, st) => Return (with_core svc st)
    | (Raise e, _) => Raise e
    end.



(** A method of the watcher leaves the configuration alone. *)
Definition keeps_config {A : Type} (m : M A) : Prop :=
  forall st, config (snd (m st)) = config st.

(** A running service whose configuration has sending switched off, and
    traces arriving while the file still says so, or is unreadable. *)
Definition disabled_config : config_t :=
  {| log_file := Some "/var/log/apache2/error.log";
     enabled := Some false;
     n8n_url := Some "http://n8n.local/webhook/php-errors" |}.

Definition disabled_service : service :=
  {| core := watcher_init disabled_config; config_path := "config.json";
     reload_interval := 10; last_config_load_time := 100 |}.


(** * Properties *)

(** ** The grouper *)

Lemma Qle_bool_false (a b : Q) : (b < a)%Q -> Qle_bool a b = false.
Proof.
  intros H. destruct (Qle_bool a b) eqn:E; [|reflexivity].
  apply Qle_bool_iff in E. exfalso. apply (Qlt_not_le _ _ H E).
Qed.

Lemma tail_run_app st r1 r2 :
  tail_run st (r1 ++ r2) =
  let '(o1, st1) := tail_run st r1 in
  let '(o2, st2) := tail_run st1 r2 in (o1 ++ o2, st2).
Proof.
  revert st. induction r1 as [|[l t] r1 IH]; intros st; simpl.
  - destruct (tail_run st r2); reflexivity.
  - destruct (tail_step st l t) as [o st']. rewrite IH.
    destruct (tail_run st' r1) as [o1 st1].
    destruct (tail_run st1 r2) as [o2 st2].
    now rewrite app_assoc.
Qed.

(** Reads that stay within the quiet period only grow the accumulator. *)
Lemma tail_run_inner ct start reads :
  quiet start reads ->
  tail_run {| current_trace := ct; at_loop := Inner start |} reads =
  ([], {| current_trace := ct ++ lines_of reads;
          at_loop := Inner (last_line_time start reads) |}).
Proof.
  revert ct start. induction reads as [|[l t] reads IH]; intros ct start Hq; simpl.
  - now rewrite app_nil_r.
  - simpl in Hq. unfold tail_step; simpl.
    destruct (String.eqb l "") eqn:El.
    + destruct Hq as [Ht Hq]. rewrite (Qle_bool_false _ _ Ht).
      now rewrite (IH _ _ Hq).
    + rewrite (IH _ _ Hq). now rewrite <- app_assoc.
Qed.

(** The flush at the end of a quiet period. *)
Lemma tail_step_flush ct start tf :
  (fcntl_wait_time <= tf - start)%Q ->
  tail_step {| current_trace := ct; at_loop := Inner start |} "" tf =
  ([join nl ct], tail_init).
Proof.
  intros H. unfold tail_step; simpl.
  apply Qle_bool_iff in H. now rewrite H.
Qed.

Lemma tail_step_outer_empty st l t :
  outer_empty st -> outer_empty (snd (tail_step st l t)).
Proof.
  intros Hst. unfold tail_step, outer_empty in *.
  destruct (at_loop st) eqn:E.
  - destruct (String.eqb l ""); simpl.
    + intros _. now apply Hst.
    + destruct (error_start_pattern (strip l)); [destruct (current_trace st)|];
        simpl; discriminate.
  - destruct (String.eqb l "").
    + destruct (Qle_bool _ _); simpl; [reflexivity|congruence].
    + simpl; discriminate.
Qed.

Lemma tail_run_outer_empty reads : forall st,
  outer_empty st -> outer_empty (snd (tail_run st reads)).
Proof.
  induction reads as [|[l t] reads IH]; intros st Hst; simpl; [assumption|].
  pose proof (tail_step_outer_empty st l t Hst) as H1.
  destruct (tail_step st l t) as [o st']. simpl in H1.
  specialize (IH st' H1). destruct (tail_run st' reads); assumption.
Qed.

(** A burst of lines and the flush that ends it. *)
Lemma tail_run_burst ct start reads tf :
  quiet start reads ->
  (fcntl_wait_time <= tf - last_line_time start reads)%Q ->
  tail_run {| current_trace := ct; at_loop := Inner start |}
           (reads ++ [("", tf)]) =
  ([join nl (ct ++ lines_of reads)], tail_init).
Proof.
  intros Hq Hf.
  rewrite tail_run_app, (tail_run_inner _ _ _ Hq). simpl.
  now rewrite (tail_step_flush _ _ _ Hf).
Qed.

(** C3. In the inner (collecting) loop every line that is read before the
    quiet period runs out is appended to the accumulator, whatever it
    contains: the error-start pattern is not consulted there, and nothing is
    yielded meanwhile. Lines that arrive less than two seconds after their
    predecessor (two error-start lines among them) therefore leave in one
    single trace, yielded by the first empty read that comes two seconds or
    more after the last line. *)
Theorem collecting_merges_lines :
  forall (ct : list string) (start : Q) (reads : list (string * Q)) (tf : Q),
    quiet start reads ->
    (fcntl_wait_time <= tf - last_line_time start reads)%Q ->
    tail_run {| current_trace := ct; at_loop := Inner start |} reads =
    ([], {| current_trace := ct ++ lines_of reads;
            at_loop := Inner (last_line_time start reads) |}) /\
    tail_run {| current_trace := ct; at_loop := Inner start |}
             (reads ++ [("", tf)]) =
    ([join nl (ct ++ lines_of reads)], tail_init).
Proof.
  intros ct start reads tf Hq Hf. split.
  - now apply tail_run_inner.
  - now apply tail_run_burst.
Qed.

(** Two error-start lines 1.5 seconds apart, polled in between, then
    silence: one trace with both. *)
Lemma collecting_merges_lines_witness :
  error_start_pattern "PHP Warning: a" = true /\
  error_start_pattern "[error] b" = true /\
  tail_run {| current_trace := ["PHP Warning: a"]; at_loop := Inner 10 |}
           ([("", 10.2%Q); ("", 11%Q); ("[error] b" +:+ nl, 11.5%Q);
             ("", 12%Q)] ++ [("", 13.5%Q)]) =
  (["PHP Warning: a" +:+ nl +:+ "[error] b"], tail_init).
Proof.
  split; [reflexivity|]. split; [reflexivity|].
  apply (collecting_merges_lines ["PHP Warning: a"] 10
           [("", 10.2%Q); ("", 11%Q); ("[error] b" +:+ nl, 11.5%Q); ("", 12%Q)]
           13.5%Q).
  - simpl. repeat split; reflexivity.
  - simpl. unfold fcntl_wait_time, Qle. simpl. lia.
Defined.

(** C1, as the code has it. At the top of the outer loop the accumulator
    is empty, and a line read there is never dropped: matching the
    error-start pattern or not, it opens the accumulator, and it leaves in
    the one trace that is yielded when the quiet period after the last line
    of the burst has run out. *)
Theorem outer_line_always_kept :
  forall (before : list (string * Q)) (l1 : string) (t1 : Q)
         (reads : list (string * Q)) (tf : Q),
    at_loop (snd (tail_run tail_init before)) = Outer ->
    l1 <> "" ->
    quiet t1 reads ->
    (fcntl_wait_time <= tf - last_line_time t1 reads)%Q ->
    tail_run (snd (tail_run tail_init before))
             ((l1, t1) :: reads ++ [("", tf)]) =
    ([join nl (strip l1 :: lines_of reads)], tail_init).
Proof.
  intros before l1 t1 reads tf Hout Hl Hq Hf.
  assert (Hemp : current_trace (snd (tail_run tail_init before)) = []).
  { apply (tail_run_outer_empty before tail_init); [|assumption].
    intros _; reflexivity. }
  destruct (snd (tail_run tail_init before)) as [ct lp]; simpl in *. subst.
  assert (El : String.eqb l1 "" = false) by now apply String.eqb_neq.
  unfold tail_step at 1; simpl. rewrite El.
  assert (Hs : (let '(out, trace) :=
                  if error_start_pattern (strip l1)
                  then ([] : list string, [] : list string)
                  else ([], []) in
                (out, {| current_trace := trace ++ [strip l1];
                         at_loop := Inner t1 |})) =
               ([], {| current_trace := [strip l1]; at_loop := Inner t1 |})).
  { now destruct (error_start_pattern (strip l1)). }
  rewrite Hs. now rewrite (tail_run_burst [strip l1] t1 reads tf Hq Hf).
Qed.

Lemma outer_line_always_kept_witness :
  tail_run (snd (tail_run tail_init []))
           (("INFO ok" +:+ nl, 0%Q) ::
            [("PHP Fatal error: X in a.php on line 10" +:+ nl, 0.1%Q);
             ("  stack frame 1" +:+ nl, 0.2%Q); ("", 1%Q)] ++ [("", 2.5%Q)]) =
  ([join nl ["INFO ok"; "PHP Fatal error: X in a.php on line 10";
             "stack frame 1"]], tail_init).
Proof.
  apply (outer_line_always_kept [] ("INFO ok" +:+ nl) 0
           [("PHP Fatal error: X in a.php on line 10" +:+ nl, 0.1%Q);
            ("  stack frame 1" +:+ nl, 0.2%Q); ("", 1%Q)] 2.5%Q).
  - reflexivity.
  - discriminate.
  - simpl. repeat split; reflexivity.
  - simpl. unfold fcntl_wait_time, Qle. simpl. lia.
Defined.

(** C1 as the specification words it fails on its own example: "INFO ok"
    matches no error start, is read with an empty accumulator, and is the
    first line of the one trace that is yielded. *)
Lemma info_line_is_emitted :
  error_start_pattern (strip ("INFO ok" +:+ nl)) = false /\
  fst (tail_run tail_init example_reads) =
    [join nl ["INFO ok"; "PHP Fatal error: X in a.php on line 10";
              "stack frame 1"]] /\
  fst (tail_run tail_init example_reads) <>
    [join nl ["PHP Fatal error: X in a.php on line 10"; "stack frame 1"]].
Proof.
  split; [reflexivity|]. split; [reflexivity|]. discriminate.
Qed.

(** ** The diff scan *)

Lemma advance_ge ls : forall c, (c <= advance c ls)%Z.
Proof.
  induction ls as [|l r IH]; intros c; simpl; [lia|].
  destruct (counted l); [specialize (IH (c + 1)%Z)|specialize (IH c)]; lia.
Qed.

Lemma diff_scan_skip n pre rest : forall c,
  Forall no_header pre -> (advance c pre < n)%Z ->
  diff_scan n c (pre ++ rest) = diff_scan n (advance c pre) rest.
Proof.
  induction pre as [|l pre IH]; intros c Hh Hlt; simpl; [reflexivity|].
  inversion Hh as [|? ? Hl Hpre]; subst. unfold no_header in Hl. rewrite Hl.
  simpl in Hlt. unfold counted in *.
  fold (body_line l).
  destruct (body_line l) eqn:Eb; simpl in *.
  - pose proof (advance_ge pre (if negb (startswith l "-") then c + 1 else c)%Z) as Hge.
    assert (Hc : (c =? n)%Z = false).
    { apply Z.eqb_neq. destruct (negb (startswith l "-")); lia. }
    rewrite Hc. destruct (negb (startswith l "-")); now apply IH.
  - now apply IH.
Qed.

Lemma body_line_no_header d : body_line d = true -> no_header d.
Proof.
  unfold body_line, no_header, hunk_header_pattern, startswith.
  destruct d as [|c r]; [discriminate|].
  destruct c as [[] [] [] [] [] [] [] []]; simpl; try discriminate; try reflexivity.
Qed.

Lemma diff_scan_select n c d post :
  body_line d = true -> c = n -> diff_scan n c (d :: post) = Some d.
Proof.
  intros Hb ->. simpl. rewrite (body_line_no_header d Hb).
  fold (body_line d). rewrite Hb. simpl. now rewrite Z.eqb_refl.
Qed.

Lemma diff_scan_counted n c k rest :
  counted k = true -> c <> n ->
  diff_scan n c (k :: rest) = diff_scan n (c + 1)%Z rest.
Proof.
  intros Hk Hc. unfold counted in Hk. apply andb_true_iff in Hk as [Hb Hm].
  simpl. rewrite (body_line_no_header k Hb). fold (body_line k).
  rewrite Hb, Hm. simpl. apply Z.eqb_neq in Hc. now rewrite Hc.
Qed.

Lemma counter_cons c l r : counter c (l :: r) = counter (counter c [l]) r.
Proof. reflexivity. Qed.

Lemma never_hit_b_sound n pre : forall c,
  never_hit_b n c pre = true -> never_hit n c pre.
Proof.
  induction pre as [|l r IH]; intros c H pre1 x pre2 E Hb.
  - now destruct pre1.
  - simpl in H. apply andb_true_iff in H as [H1 H2].
    destruct pre1 as [|y pre1]; simpl in E; inversion E; subst.
    + rewrite Hb in H1. simpl in H1. simpl.
      apply negb_true_iff, Z.eqb_neq in H1. exact H1.
    + rewrite counter_cons. now apply (IH _ H2 pre1 x pre2).
Qed.

Lemma never_hit_tail n c l r :
  never_hit n c (l :: r) -> never_hit n (counter c [l]) r.
Proof.
  intros H pre1 x pre2 E Hb. rewrite <- counter_cons.
  apply (H (l :: pre1) x pre2); [now rewrite E|assumption].
Qed.

Lemma never_hit_head n c l r :
  never_hit n c (l :: r) -> body_line l = true -> c <> n.
Proof. intros H Hb. exact (H [] l r eq_refl Hb). Qed.

Lemma diff_scan_step n c l r :
  (body_line l = true -> c <> n) ->
  diff_scan n c (l :: r) = diff_scan n (counter c [l]) r.
Proof.
  intros H. simpl. unfold counted. fold (body_line l).
  destruct (hunk_header_pattern l) as [[g1 g2]|] eqn:Eh; [reflexivity|].
  destruct (body_line l) eqn:Eb; simpl; [|reflexivity].
  specialize (H eq_refl). apply Z.eqb_neq in H. rewrite H.
  now destruct (negb (startswith l "-")).
Qed.

Lemma diff_scan_pass n pre rest : forall c,
  never_hit n c pre ->
  diff_scan n c (pre ++ rest) = diff_scan n (counter c pre) rest.
Proof.
  induction pre as [|l r IH]; intros c H; [reflexivity|].
  rewrite <- app_comm_cons, diff_scan_step, counter_cons.
  - apply IH. now apply never_hit_tail.
  - now apply never_hit_head with (r := r).
Qed.

Lemma diff_scan_found n lns : forall c d,
  diff_scan n c lns = Some d ->
  exists pre post,
    lns = pre ++ d :: post /\ body_line d = true /\
    counter c pre = n /\ never_hit n c pre.
Proof.
  induction lns as [|l r IH]; intros c d H; [discriminate|].
  destruct (body_line l && (c =? n)%Z) eqn:E.
  - apply andb_true_iff in E as [Hb Hc]. apply Z.eqb_eq in Hc.
    rewrite (diff_scan_select n c l r Hb Hc) in H. inversion H; subst.
    exists [], r. repeat split; [assumption|].
    intros pre1 x pre2 E. now destruct pre1.
  - rewrite diff_scan_step in H.
    + apply IH in H as (pre & post & Hl & Hb & Hc & Hn).
      exists (l :: pre), post. rewrite Hl. repeat split; try assumption.
      intros pre1 x pre2 E' Hx. destruct pre1 as [|y pre1]; simpl in E';
        inversion E'; subst.
      * simpl. rewrite Hx in E. simpl in E. now apply Z.eqb_neq.
      * rewrite counter_cons. now apply (Hn pre1 x pre2).
    + intros Hb. rewrite Hb in E. simpl in E. now apply Z.eqb_neq.
Qed.

Lemma counter_no_header c pre :
  Forall no_header pre -> counter c pre = advance c pre.
Proof.
  revert c. induction pre as [|l r IH]; intros c H; [reflexivity|].
  inversion H as [|? ? Hl Hr]; subst. simpl. unfold no_header in Hl.
  rewrite Hl. now apply IH.
Qed.

(** C5, as the code has it. The scan sets its counter from the new-file
    start of each hunk header, adds one for a context or an added line and
    nothing for a removed line, and selects the first line beginning with
    [+], [-] or a blank at which the counter equals [line_number], a
    removed line included: [find_line_diff] answers [d] exactly when [d] is
    such a line with the counter at [line_number] and no such line was met
    with that counter before it. In particular, under a hunk header (the
    first or a later one) a line that directly follows a context or added
    line with the counter at [line_number] is the one selected: so is
    [+foo();] under [@@ -5,3 +5,4 @@] when the lines before it are context
    lines. *)
Theorem diff_line_selected :
  forall (diff_output : string) (line_number : Z),
    (forall d,
        find_line_diff diff_output line_number = Some d <->
        exists pre post,
          splitlines diff_output = pre ++ d :: post /\
          body_line d = true /\
          counter 0 pre = line_number /\
          never_hit line_number 0 pre) /\
    (forall before hdr g1 g2 pre k d post,
        splitlines diff_output = before ++ hdr :: pre ++ k :: d :: post ->
        never_hit line_number 0 before ->
        hunk_header_pattern hdr = Some (g1, g2) ->
        Forall no_header pre ->
        counted k = true ->
        body_line d = true ->
        (advance (int_of_digits g1) pre + 1 = line_number)%Z ->
        find_line_diff diff_output line_number = Some d).
Proof.
  intros diff_output n. unfold find_line_diff. split.
  - intros d. split.
    + apply diff_scan_found.
    + intros (pre & post & Hs & Hb & Hc & Hn). rewrite Hs.
      rewrite (diff_scan_pass _ _ _ _ Hn). now apply diff_scan_select.
  - intros before hdr g1 g2 pre k d post Hs Hn Hh Hpre Hk Hd Ha.
    rewrite Hs, (diff_scan_pass _ _ _ _ Hn). simpl. rewrite Hh.
    rewrite (diff_scan_skip n pre _ _ Hpre) by lia.
    rewrite (diff_scan_counted _ _ _ _ Hk) by lia.
    now apply diff_scan_select.
Qed.

Lemma diff_line_selected_witness :
  find_line_diff two_hunk_diff 7 = Some "+foo();".
Proof.
  apply (proj2 (diff_line_selected two_hunk_diff 7)
           ["diff --git a/x.php b/x.php"; "index 1111111..2222222 100644";
            "--- a/x.php"; "+++ b/x.php";
            "@@ -1,2 +1,2 @@"; " x"; "-old"; "+new"]
           "@@ -5,3 +5,4 @@" "5" (Some "4") [" a"] " b" "+foo();" [" c"]).
  - reflexivity.
  - apply never_hit_b_sound. reflexivity.
  - reflexivity.
  - repeat constructor.
  - reflexivity.
  - reflexivity.
  - reflexivity.
Defined.

(** C5 as worded fails when a removed line stands before the added one:
    under [@@ -5,3 +5,4 @@] with body [ a], [ b], [-y], [+foo();], [+z] the
    new file has [foo();] as line 7, and the scan selects [-y]. *)
Lemma removed_line_selected :
  hunk_header_pattern "@@ -5,3 +5,4 @@" = Some ("5", Some "4") /\
  nth_error (List.filter counted [" a"; " b"; "-y"; "+foo();"; "+z"]) (7 - 5)
    = Some "+foo();" /\
  find_line_diff replaced_diff 7 = Some "-y" /\
  find_line_diff replaced_diff 7 <> Some "+foo();".
Proof.
  split; [reflexivity|]. split; [reflexivity|]. split; [reflexivity|].
  discriminate.
Qed.

(** ** get_git_blame *)

Lemma blame_line_keeps_local b ln :
  is_local_changes b = true -> is_local_changes (blame_line b ln) = true.
Proof.
  intros H. unfold blame_line.
  destruct (zero_commit ln); repeat (destruct (startswith _ _) || destruct (hex40 _));
    simpl; assumption || reflexivity.
Qed.

Lemma blame_line_sets_local b ln :
  zero_commit ln = true -> is_local_changes (blame_line b ln) = true.
Proof.
  intros H. unfold blame_line. rewrite H.
  repeat (destruct (startswith _ _) || destruct (hex40 _)); reflexivity.
Qed.

Lemma fold_blame_keeps_local lns : forall b,
  is_local_changes b = true ->
  is_local_changes (fold_left blame_line lns b) = true.
Proof.
  induction lns as [|l r IH]; intros b H; simpl; [assumption|].
  apply IH. now apply blame_line_keeps_local.
Qed.

Lemma fold_blame_local lns : forall b,
  existsb zero_commit lns = true ->
  is_local_changes (fold_left blame_line lns b) = true.
Proof.
  induction lns as [|l r IH]; intros b H; simpl in *; [discriminate|].
  destruct (zero_commit l) eqn:E.
  - apply fold_blame_keeps_local. now apply blame_line_sets_local.
  - now apply IH.
Qed.

Lemma diff_scan_body n lns : forall c d,
  diff_scan n c lns = Some d -> body_line d = true.
Proof.
  induction lns as [|l r IH]; intros c d H; simpl in H; [discriminate|].
  destruct (hunk_header_pattern l) as [[g1 g2]|].
  - now apply IH in H.
  - fold (body_line l) in H. destruct (body_line l) eqn:Eb; simpl in H.
    + destruct (c =? n)%Z.
      * now inversion H; subst.
      * destruct (negb (startswith l "-")); now apply IH in H.
    + now apply IH in H.
Qed.

Lemma body_line_nonempty d : body_line d = true -> String.eqb d "" = false.
Proof. destruct d; [discriminate|reflexivity]. Qed.

Lemma append_empty_r (s : string) : s +:+ "" = s.
Proof.
  induction s as [|a s IH]; [reflexivity|].
  change (String a (s +:+ "") = String a s). now rewrite IH.
Qed.

Lemma append_assoc_str (a b c : string) : (a +:+ b) +:+ c = a +:+ b +:+ c.
Proof.
  induction a as [|x a IH]; [reflexivity|].
  change (String x ((a +:+ b) +:+ c) = String x (a +:+ b +:+ c)).
  now rewrite IH.
Qed.

Lemma uncommitted_summary_shape last_modified diff_output n :
  uncommitted_summary last_modified (find_line_diff diff_output n) =
  "[Uncommitted changes] Last modified: " +:+ last_modified +:+
  match find_line_diff diff_output n with
  | Some d => " | Diff line: " +:+ strip d
  | None => ""
  end.
Proof.
  unfold uncommitted_summary, find_line_diff.
  destruct (diff_scan _ _ _) as [d|] eqn:E.
  - apply diff_scan_body, body_line_nonempty in E. rewrite E.
    now rewrite append_assoc_str.
  - now rewrite append_empty_r.
Qed.

(** C4. When the blame output has a line that begins with eight or more
    zeros, the dictionary that [get_git_blame] returns has
    [is_local_changes] set and its summary is the text built from the
    file's modification time, followed by the selected diff line (stripped)
    after [ | Diff line: ] when the scan found one; the summary line of the
    blame output plays no part. A dictionary is returned exactly when the
    diff and the modification time could be obtained. *)
Theorem uncommitted_blame_summary :
  forall (w : world) (file_path : string) (line_number : Z) (repo : string)
         (blame_output : string) (st : watcher),
    file_path <> "" -> repo <> "" ->
    git_blame w repo (relpath w file_path repo) line_number
      = Return blame_output ->
    existsb zero_commit (splitlines blame_output) = true ->
    match git_diff w repo (relpath w file_path repo),
          last_modified_iso w file_path with
    | Return diff_output, Return last_modified =>
        exists b,
          fst (get_git_blame w file_path line_number (Some repo) st)
            = Return (Some b) /\
          is_local_changes b = true /\
          summary b =
            Some ("[Uncommitted changes] Last modified: " +:+ last_modified +:+
                  match find_line_diff diff_output line_number with
                  | Some d => " | Diff line: " +:+ strip d
                  | None => ""
                  end)
    | _, _ =>
        forall b, fst (get_git_blame w file_path line_number (Some repo) st)
                  <> Return (Some b)
    end.
Proof.
  intros w file_path n repo blame_output st Hf Hr Hb Hz.
  apply String.eqb_neq in Hf, Hr.
  assert (Hl : is_local_changes (parse_blame blame_output) = true)
    by now apply fold_blame_local.
  unfold get_git_blame. rewrite Hr.
  unfold try_except, bind, os_path_relpath, external, ret, raise.
  rewrite Hf. simpl. rewrite Hb. simpl. rewrite Hl.
  destruct (git_diff w repo (relpath w file_path repo)) as [diff_output|e1]; simpl.
  - destruct (last_modified_iso w file_path) as [last_modified|e2]; simpl.
    + eexists. split; [reflexivity|]. split; [exact Hl|]. simpl.
      now rewrite uncommitted_summary_shape.
    + intros b. destruct (is_called_process_error e2); simpl; discriminate.
  - intros b. destruct (is_called_process_error e1); simpl; discriminate.
Qed.

Lemma uncommitted_blame_summary_witness :
  exists b,
    fst (get_git_blame sample_world "/var/www/site/app/index.php" 7
           (Some "/var/www/site") sample_watcher) = Return (Some b) /\
    is_local_changes b = true /\
    summary b =
      Some "[Uncommitted changes] Last modified: 2024-05-01T10:00:00 | Diff line: +foo();".
Proof.
  exact (uncommitted_blame_summary sample_world "/var/www/site/app/index.php" 7
           "/var/www/site" uncommitted_blame sample_watcher
           ltac:(discriminate) ltac:(discriminate) eq_refl eq_refl).
Defined.

Lemma try_except_raise {A} (m : M A) handled (x : A) st e :
  fst (try_except m handled (ret x) st) = Raise e -> handled e = false.
Proof.
  unfold try_except, ret. destruct (m st) as [[a|e'] st']; simpl.
  - discriminate.
  - destruct (handled e') eqn:E; simpl; [discriminate|congruence].
Qed.

Lemma get_git_blame_no_cpe w file_path n repo_path st :
  fst (get_git_blame w file_path n repo_path st) <> Raise CalledProcessError.
Proof.
  unfold get_git_blame. destruct repo_path as [repo|]; [|discriminate].
  destruct (String.eqb repo ""); [discriminate|].
  intros H. apply try_except_raise in H. discriminate.
Qed.

Lemma send_to_n8n_returns w error_trace now st :
  fst (send_to_n8n w error_trace now st) = Return tt.
Proof.
  unfold send_to_n8n, bind, get_state. simpl.
  destruct (n8n_url (config st)) as [url|]; [|reflexivity].
  destruct (String.eqb url ""); [reflexivity|].
  unfold try_except.
  match goal with |- context [match ?m with _ => _ end] => destruct m as [[[]|e] st'] end;
    reflexivity.
Qed.

(** C6, as the code has it. A blame or diff query that exits non-zero
    (CalledProcessError) is caught in [get_git_blame] and answered by
    [None]; [get_git_blame] never lets a CalledProcessError out. Exceptions
    of other classes are not caught there; [send_to_n8n], which calls the
    enrichment, catches every exception and always returns. *)
Theorem blame_failure_handling :
  forall (w : world) (file_path : string) (line_number : Z) (repo : string)
         (st : watcher),
    file_path <> "" -> repo <> "" ->
    (git_blame w repo (relpath w file_path repo) line_number
       = Raise CalledProcessError \/
     exists blame_output,
       git_blame w repo (relpath w file_path repo) line_number
         = Return blame_output /\
       is_local_changes (parse_blame blame_output) = true /\
       git_diff w repo (relpath w file_path repo) = Raise CalledProcessError) ->
    fst (get_git_blame w file_path line_number (Some repo) st) = Return None /\
    (forall fp n rp st',
        fst (get_git_blame w fp n rp st') <> Raise CalledProcessError) /\
    (forall error_trace now st',
        fst (send_to_n8n w error_trace now st') = Return tt).
Proof.
  intros w file_path n repo st Hf Hr H.
  split; [|split; [intros; apply get_git_blame_no_cpe
                  |intros; apply send_to_n8n_returns]].
  apply String.eqb_neq in Hf, Hr.
  unfold get_git_blame. rewrite Hr.
  unfold try_except, bind, os_path_relpath, external, ret, raise.
  rewrite Hf. simpl.
  destruct H as [Hb|(out & Hb & Hl & Hd)]; rewrite Hb; simpl.
  - reflexivity.
  - rewrite Hl, Hd. reflexivity.
Qed.

Lemma blame_failure_handling_witness :
  fst (get_git_blame failing_diff_world "/var/www/site/app/index.php" 7
         (Some "/var/www/site") sample_watcher) = Return None /\
  (forall fp n rp st',
      fst (get_git_blame failing_diff_world fp n rp st')
        <> Raise CalledProcessError) /\
  (forall error_trace now st',
      fst (send_to_n8n failing_diff_world error_trace now st') = Return tt).
Proof.
  apply (blame_failure_handling failing_diff_world
           "/var/www/site/app/index.php" 7 "/var/www/site" sample_watcher).
  - discriminate.
  - discriminate.
  - right. exists uncommitted_blame. repeat split; reflexivity.
Defined.

(** C6 as worded fails: when git cannot be started in the repository
    directory (OSError) the exception leaves [get_git_blame] and
    [get_project_info]; so does the ValueError of [os.path.relpath] for an
    empty file path. *)
Lemma blame_exception_propagates :
  fst (get_git_blame vanished_repo_world "/var/www/site/app/index.php" 7
         (Some "/var/www/site") sample_watcher) = Raise OSError /\
  fst (get_project_info vanished_repo_world (sample_trace "7") 0
         sample_watcher) = Raise OSError /\
  fst (get_git_blame sample_world "" 5 (Some "/var/www/site") sample_watcher)
    = Raise ValueError.
Proof. repeat split; vm_compute; reflexivity. Qed.

(** ** Repository root and remote *)

Lemma remote_command_silent w dir_path :
  remote_fails_silently w dir_path -> remote_command w dir_path = "unknown".
Proof.
  intros [Hc [Hs|[Ho Hs]]]; unfold remote_command; rewrite Hc.
  - apply Z.eqb_neq in Hs. now rewrite Hs.
  - apply Z.eqb_neq in Hs. rewrite Hs, Ho. now destruct (sh_status (sh_cd w dir_path) =? 0)%Z.
Qed.

Lemma resolve_remote_returns w dir_path now st :
  exists s, fst (resolve_remote w dir_path now st) = Return s.
Proof.
  unfold resolve_remote, bind, get_state. simpl.
  destruct (cache_get (git_remote_cache st) dir_path now) as [v|]; simpl; eauto.
Qed.

(** C7, as the code has it. The remote resolver always answers with a
    string, never with [None]. For a directory whose remote query fails
    without printing anything (as [git config --get] does when no origin is
    configured) the answer is exactly ["unknown"], and when [git rev-parse]
    exits non-zero for that directory the root resolver answers [None]. *)
Theorem remote_unknown_root_absent :
  forall (w : world) (dir_path : string) (now : Q) (st : watcher),
    cache_get (git_remote_cache st) dir_path now = None ->
    cache_get (git_root_cache st) dir_path now = None ->
    remote_fails_silently w dir_path ->
    git_rev_parse w dir_path = Raise CalledProcessError ->
    fst (resolve_remote w dir_path now st) = Return "unknown" /\
    fst (resolve_root w dir_path now st) = Return None /\
    (forall d t st', exists s, fst (resolve_remote w d t st') = Return s).
Proof.
  intros w dir_path now st Hm Hr Hs Hg. split; [|split].
  - unfold resolve_remote, bind, get_state. simpl. rewrite Hm. simpl.
    now rewrite (remote_command_silent _ _ Hs).
  - unfold resolve_root, bind, get_state, try_except, external. simpl.
    rewrite Hr. simpl. rewrite Hg. reflexivity.
  - intros. apply resolve_remote_returns.
Qed.

Lemma remote_unknown_root_absent_witness :
  fst (resolve_remote sample_world "/srv/plain" 0 sample_watcher)
    = Return "unknown" /\
  fst (resolve_root sample_world "/srv/plain" 0 sample_watcher) = Return None /\
  (forall d t st', exists s, fst (resolve_remote sample_world d t st') = Return s).
Proof.
  apply (remote_unknown_root_absent sample_world "/srv/plain" 0 sample_watcher).
  - reflexivity.
  - reflexivity.
  - split; [reflexivity|]. right. split; [reflexivity|discriminate].
  - reflexivity.
Defined.

(** C7 as worded fails for a query that fails with a message:
    [getoutput] captures the message, and the answer is the message
    followed by a line [unknown]. *)
Lemma noisy_failure_is_not_unknown :
  sh_status (sh_git_config broken_config_world "/var/www/site/app") <> 0%Z /\
  fst (resolve_remote broken_config_world "/var/www/site/app" 0 sample_watcher)
    = Return ("fatal: bad config line 1 in file .git/config" +:+ nl +:+ "unknown") /\
  fst (resolve_remote broken_config_world "/var/www/site/app" 0 sample_watcher)
    <> Return "unknown".
Proof. split; [discriminate|]. split; [reflexivity|discriminate]. Qed.

(** ** Opening the log *)

(** C8 fails on the code for an unreadable file. A configured path that
    names a regular file passes the [isfile] test of line 116; when
    [open] then raises (PermissionError), nothing catches it and the
    exception leaves the generator. Only the missing-file case is handled
    ([missing_log_is_empty]). *)
Theorem unreadable_log_raises :
  forall (w : world) (cfg : config_t) (path : string) (e : exn),
    log_file cfg = Some path -> path <> "" ->
    isfile w path = true ->
    open_r w path = Raise e ->
    tail_log_open w cfg = Raise e.
Proof.
  intros w cfg path e Hl Hp Hi Ho. unfold tail_log_open.
  apply String.eqb_neq in Hp. now rewrite Hl, Hp, Hi, Ho.
Qed.

Lemma unreadable_log_raises_witness :
  tail_log_open unreadable_log_world sample_config = Raise OSError.
Proof.
  apply (unreadable_log_raises unreadable_log_world sample_config
           "/var/log/apache2/error.log" OSError).
  - reflexivity.
  - discriminate.
  - reflexivity.
  - reflexivity.
Defined.

Lemma missing_log_is_empty w cfg :
  match log_file cfg with
  | Some path => path = "" \/ isfile w path = false
  | None => True
  end ->
  tail_log_open w cfg = Return false.
Proof.
  unfold tail_log_open. destruct (log_file cfg) as [path|]; [|reflexivity].
  intros [->|H]; [reflexivity|]. rewrite H. now rewrite orb_true_r.
Qed.

(** ** The vhost walk *)

Lemma rstrip_by_length p s : String.length (rstrip_by p s) <= String.length s.
Proof.
  induction s as [|c r IH]; simpl; [lia|].
  destruct (rstrip_by p r) eqn:E; simpl in *.
  - destruct (p c); simpl; lia.
  - lia.
Qed.

Lemma rstrip_by_same p s :
  String.length (rstrip_by p s) = String.length s -> rstrip_by p s = s.
Proof.
  induction s as [|c r IH]; simpl; [reflexivity|].
  pose proof (rstrip_by_length p r) as Hle.
  destruct (rstrip_by p r) eqn:E; simpl in *.
  - destruct (p c); simpl; intros H; [lia|].
    destruct r; [reflexivity|simpl in H; lia].
  - intros H. f_equal. apply IH. lia.
Qed.

Lemma head_of_length p : String.length (head_of p) <= String.length p.
Proof.
  induction p as [|c r IH]; simpl; [lia|].
  destruct (has_slash r); simpl; [lia|].
  destruct (is_slash c); simpl; lia.
Qed.

Lemma head_of_same p :
  String.length (head_of p) = String.length p -> head_of p = p.
Proof.
  induction p as [|c r IH]; simpl; [reflexivity|].
  destruct (has_slash r); simpl.
  - intros H. f_equal. apply IH. lia.
  - destruct (is_slash c); simpl; intros H.
    + destruct r; [reflexivity|simpl in H; lia].
    + lia.
Qed.

Lemma dirname_length p : String.length (dirname p) <= String.length p.
Proof.
  unfold dirname. pose proof (head_of_length p).
  pose proof (rstrip_by_length is_slash (head_of p)).
  destruct (_ && _); lia.
Qed.

(** A parent that differs from the path is strictly shorter. *)
Lemma dirname_shorter p :
  dirname p <> p -> String.length (dirname p) < String.length p.
Proof.
  intros Hne. pose proof (dirname_length p) as Hle.
  destruct (Nat.eq_dec (String.length (dirname p)) (String.length p)) as [E|]; [|lia].
  exfalso. apply Hne. unfold dirname in *.
  pose proof (head_of_length p). pose proof (rstrip_by_length is_slash (head_of p)).
  destruct (_ && _).
  - assert (String.length (head_of p) = String.length p) as E1 by lia.
    rewrite (rstrip_by_same is_slash (head_of p)) by lia.
    now apply head_of_same.
  - now apply head_of_same.
Qed.

Lemma vhost_loop_fuel w vhost_dir : forall fuel search_path st,
  String.length search_path < fuel ->
  exists r st', vhost_loop w vhost_dir fuel search_path st = Some (r, st').
Proof.
  induction fuel as [|fuel IH]; intros p st Hlt; [lia|]. simpl.
  destruct (negb (String.eqb (strip (grep_l w vhost_dir p)) "")); [eauto|].
  destruct (String.eqb (dirname p) p) eqn:E; simpl; [eauto|].
  destruct (String.eqb (dirname p) "/"); [eauto|].
  apply IH. apply String.eqb_neq in E. pose proof (dirname_shorter p E). lia.
Qed.

Lemma vhost_loop_more_fuel w vhost_dir : forall fuel search_path st r,
  vhost_loop w vhost_dir fuel search_path st = Some r ->
  forall fuel', fuel <= fuel' ->
  vhost_loop w vhost_dir fuel' search_path st = Some r.
Proof.
  induction fuel as [|fuel IH]; intros p st r H fuel' Hle; [discriminate|].
  destruct fuel' as [|fuel']; [lia|]. simpl in *.
  destruct (negb (String.eqb (strip (grep_l w vhost_dir p)) "")); [assumption|].
  destruct (String.eqb (dirname p) p || String.eqb (dirname p) "/"); [assumption|].
  apply (IH _ _ _ H). lia.
Qed.

(** C9. The upward walk of [find_vhost_for_path] ends for every path: a
    fuel of more than the length of the search path always yields an answer
    (every round that goes on has a strictly shorter search path), and when
    the search finds nothing for a path whose parent is the path itself or
    is [/], the walk stops there with the answer [None]. *)
Theorem vhost_walk_terminates :
  forall (w : world) (vhost_dir search_path : string) (st : watcher)
         (fuel : nat),
    String.length search_path < fuel ->
    exists r st',
      vhost_loop w vhost_dir fuel search_path st = Some (r, st') /\
      (forall fuel', fuel <= fuel' ->
         vhost_loop w vhost_dir fuel' search_path st = Some (r, st')) /\
      (strip (grep_l w vhost_dir search_path) = "" ->
       dirname search_path = search_path \/ dirname search_path = "/" ->
       r = None /\ st' = log_call (CallGrep vhost_dir search_path) st).
Proof.
  intros w vhost_dir p st fuel Hlt.
  destruct (vhost_loop_fuel w vhost_dir fuel p st Hlt) as (r & st' & H).
  exists r, st'. split; [assumption|]. split.
  - intros fuel' Hle. now apply (vhost_loop_more_fuel _ _ _ _ _ _ H).
  - intros Hg Hd. destruct fuel as [|fuel]; [lia|]. simpl in H.
    rewrite Hg in H. simpl in H.
    assert (Hstop : String.eqb (dirname p) p || String.eqb (dirname p) "/" = true).
    { destruct Hd as [Hd|Hd]; rewrite Hd.
      - now rewrite String.eqb_refl.
      - simpl. now rewrite orb_true_r. }
    rewrite Hstop in H. now inversion H.
Qed.

Lemma vhost_walk_terminates_witness :
  exists r st',
    vhost_loop sample_world default_vhost_dir 5 "/srv" sample_watcher
      = Some (r, st') /\
    (forall fuel', 5 <= fuel' ->
       vhost_loop sample_world default_vhost_dir fuel' "/srv" sample_watcher
         = Some (r, st')) /\
    (strip (grep_l sample_world default_vhost_dir "/srv") = "" ->
     dirname "/srv" = "/srv" \/ dirname "/srv" = "/" ->
     r = None /\ st' = log_call (CallGrep default_vhost_dir "/srv") sample_watcher).
Proof.
  apply (vhost_walk_terminates sample_world default_vhost_dir "/srv"
           sample_watcher 5).
  simpl. lia.
Defined.

(** The fuel that [find_vhost_for_path] passes is enough: its fallback
    branch is never taken. *)
Lemma find_vhost_for_path_fuel w file_path vhost_dir st :
  vhost_loop w vhost_dir (S (String.length (dirname file_path)))
             (dirname file_path) st <> None.
Proof.
  destruct (vhost_loop_fuel w vhost_dir (S (String.length (dirname file_path)))
              (dirname file_path) st) as (r & st' & H); [lia|].
  rewrite H. discriminate.
Qed.

(** ** The enrichment *)

Lemma fst_bind {A B} (m : M A) (f : A -> M B) st :
  fst (bind m f st) =
  match m st with
  | (Return a, st') => fst (f a st')
  | (Raise e, _) => Raise e
  end.
Proof. unfold bind. now destruct (m st) as [[a|e] st']. Qed.

Lemma find_vhost_returns w file_path vhost_dir st :
  exists v, fst (find_vhost_for_path w file_path vhost_dir st) = Return v.
Proof.
  unfold find_vhost_for_path, bind, get_state.
  destruct (vhost_cache st !! file_path) as [v|]; [simpl; eauto|].
  destruct (vhost_loop_fuel w vhost_dir
              (S (String.length (dirname file_path))) (dirname file_path) st)
    as (r & st' & H); [lia|].
  rewrite H. simpl. eauto.
Qed.

Lemma resolve_root_returns w dir_path now st :
  answers (git_rev_parse w dir_path) ->
  exists v, fst (resolve_root w dir_path now st) = Return v.
Proof.
  intros H. unfold resolve_root, bind, get_state, try_except, external, ret.
  simpl. destruct (cache_get (git_root_cache st) dir_path now); [simpl; eauto|].
  simpl. destruct (git_rev_parse w dir_path) as [out|e]; simpl in *; [eauto|].
  subst e. simpl. eauto.
Qed.

Lemma get_git_blame_returns w file_path n repo_path st :
  file_path <> "" ->
  (forall repo, answers (git_blame w repo (relpath w file_path repo) n)) ->
  (forall repo, answers (git_diff w repo (relpath w file_path repo))) ->
  answers (last_modified_iso w file_path) ->
  exists b, fst (get_git_blame w file_path n repo_path st) = Return b.
Proof.
  intros Hf Hb Hd Hm. apply String.eqb_neq in Hf.
  unfold get_git_blame. destruct repo_path as [repo|]; [|simpl; eauto].
  destruct (String.eqb repo ""); [simpl; eauto|].
  specialize (Hb repo). specialize (Hd repo).
  unfold try_except, bind, os_path_relpath, external, ret, raise.
  rewrite Hf. simpl.
  destruct (git_blame w repo (relpath w file_path repo) n) as [out|e];
    simpl in *; [|subst e; simpl; eauto].
  destruct (is_local_changes (parse_blame out)); simpl; [|eauto].
  destruct (git_diff w repo (relpath w file_path repo)) as [d|e];
    simpl in *; [|subst e; simpl; eauto].
  destruct (last_modified_iso w file_path) as [m|e];
    simpl in *; [eauto|subst e; simpl; eauto].
Qed.

Lemma resolve_blame_returns w file_path n repo_root now st :
  file_path <> "" ->
  (forall repo, answers (git_blame w repo (relpath w file_path repo) n)) ->
  (forall repo, answers (git_diff w repo (relpath w file_path repo))) ->
  answers (last_modified_iso w file_path) ->
  exists b, fst (resolve_blame w file_path n repo_root now st) = Return b.
Proof.
  intros Hf Hb Hd Hm. unfold resolve_blame. rewrite fst_bind.
  destruct (get_git_blame_returns w file_path n repo_root st Hf Hb Hd Hm)
    as (b & H).
  destruct (get_git_blame w file_path n repo_root st) as [r st1].
  simpl in H. subst r.
  unfold bind at 1, set_git_blame_cache at 1. unfold bind at 1, get_state.
  cbn [fst].
  match goal with |- context [cache_get ?c ?k ?t] => destruct (cache_get c k t) end;
    [simpl; eauto|].
  rewrite fst_bind.
  match goal with
  | |- context [get_git_blame w file_path n repo_root ?s] =>
      destruct (get_git_blame_returns w file_path n repo_root s Hf Hb Hd Hm)
        as (b' & H');
      destruct (get_git_blame w file_path n repo_root s) as [r' st2]
  end.
  simpl in H'. subst r'. simpl. eauto.
Qed.

(** C10. For a trace in which [in <file> on line <N>] is found, whatever
    the enrichment returns is a dictionary whose [file] and [line] are the
    stripped first group and the number of the second, and whose
    [error_line] entry, a sixth key next to [file], [line], [vhost],
    [git_remote] and [blame], is the whole trace stripped of surrounding
    whitespace. The dictionary is returned whenever the file group is not
    blank and none of the git queries and the look at the file fails other
    than by a non-zero exit. *)
Theorem enrichment_has_error_line :
  forall (w : world) (trace : string) (now : Q) (st : watcher)
         (g1 g2 : string),
    file_line_search trace = Some (g1, g2) ->
    (forall d,
        fst (get_project_info w trace now st) = Return d ->
        exists r,
          d = Some r /\
          file r = strip g1 /\
          line r = int_of_digits g2 /\
          error_line r = strip trace) /\
    (strip g1 <> "" ->
     answers (git_rev_parse w (abspath w (dirname (strip g1)))) ->
     (forall repo,
         answers (git_blame w repo (relpath w (strip g1) repo)
                    (int_of_digits g2))) ->
     (forall repo, answers (git_diff w repo (relpath w (strip g1) repo))) ->
     answers (last_modified_iso w (strip g1)) ->
     exists r,
       fst (get_project_info w trace now st) = Return (Some r) /\
       file r = strip g1 /\
       line r = int_of_digits g2 /\
       error_line r = strip trace).
Proof.
  intros w trace now st g1 g2 Hm.
  assert (Hshape : forall d,
             fst (get_project_info w trace now st) = Return d ->
             exists r, d = Some r /\ file r = strip g1 /\
                       line r = int_of_digits g2 /\ error_line r = strip trace).
  { intros d. unfold get_project_info. rewrite Hm. rewrite fst_bind.
    destruct (find_vhost_for_path w (strip g1) default_vhost_dir st)
      as [[found|e] st1]; [|discriminate].
    rewrite fst_bind.
    destruct (resolve_root w _ now st1) as [[root|e] st2]; [|discriminate].
    rewrite fst_bind.
    destruct (resolve_remote w _ now st2) as [[remote|e] st3]; [|discriminate].
    rewrite fst_bind.
    destruct (resolve_blame w _ _ root now st3) as [[b|e] st4]; [|discriminate].
    simpl. intros [= <-]. eexists. split; [reflexivity|]. simpl. auto. }
  split; [exact Hshape|].
  intros Hf Hroot Hb Hd Hmt.
  assert (Hret : exists d, fst (get_project_info w trace now st) = Return d).
  { unfold get_project_info. rewrite Hm. rewrite fst_bind.
    destruct (find_vhost_returns w (strip g1) default_vhost_dir st) as (v & Hv).
    destruct (find_vhost_for_path w (strip g1) default_vhost_dir st)
      as [r1 st1]. simpl in Hv. subst r1. rewrite fst_bind.
    destruct (resolve_root_returns w _ now st1 Hroot) as (root & Hr).
    destruct (resolve_root w _ now st1) as [r2 st2]. simpl in Hr. subst r2.
    rewrite fst_bind.
    destruct (resolve_remote_returns w (abspath w (dirname (strip g1))) now st2)
      as (remote & Hrem).
    destruct (resolve_remote w _ now st2) as [r3 st3]. simpl in Hrem. subst r3.
    rewrite fst_bind.
    destruct (resolve_blame_returns w (strip g1) (int_of_digits g2) root now st3
                Hf Hb Hd Hmt) as (b & Hbl).
    destruct (resolve_blame w _ _ root now st3) as [r4 st4]. simpl in Hbl.
    subst r4. simpl. eauto. }
  destruct Hret as (d & Hd'). destruct (Hshape d Hd') as (r & -> & Hrest).
  exists r. split; [assumption|exact Hrest].
Qed.

Lemma enrichment_has_error_line_witness :
  exists r,
    fst (get_project_info sample_world ("  " +:+ sample_trace "3" +:+ nl)
           0 sample_watcher) = Return (Some r) /\
    file r = "/var/www/site/app/index.php" /\
    line r = 3%Z /\
    error_line r =
      "PHP Warning: undefined index in /var/www/site/app/index.php on line 3".
Proof.
  apply (proj2 (enrichment_has_error_line sample_world
                  ("  " +:+ sample_trace "3" +:+ nl) 0 sample_watcher
                  "/var/www/site/app/index.php" "3" eq_refl)).
  - discriminate.
  - exact I.
  - intros repo. exact I.
  - intros repo. exact I.
  - exact I.
Defined.


(** ** The caches *)

Lemma snd_bind {A B} (m : M A) (f : A -> M B) st :
  snd (bind m f st) =
  match m st with
  | (Return a, st') => snd (f a st')
  | (Raise e, st') => st'
  end.
Proof. unfold bind. now destruct (m st) as [[a|e] st']. Qed.

Lemma find_app_none {A} (p : A -> bool) l x :
  Forall (fun y => p y = false) l -> List.find p (l ++ [x]) = if p x then Some x else None.
Proof.
  induction l as [|y l IH]; intros H; simpl; [reflexivity|].
  inversion H; subst. rewrite H2. now apply IH.
Qed.

Lemma Forall_skipn {A} (P : A -> Prop) n l : Forall P l -> Forall P (skipn n l).
Proof.
  revert l. induction n as [|n IH]; intros l H; simpl; [assumption|].
  destruct l; [constructor|]. inversion H; subst. now apply IH.
Qed.

Lemma Forall_filter_negb {A} (p : A -> bool) l :
  Forall (fun y => p y = false) (List.filter (fun y => negb (p y)) l).
Proof.
  induction l as [|y l IH]; simpl; [constructor|].
  destruct (p y) eqn:E; simpl; [assumption|]. now constructor.
Qed.

(** What was just stored is found, as long as the cache has a positive
    time to live. *)
Lemma cache_get_set {V} (c : TTLCache V) key v now :
  (0 < ttl c)%Q -> cache_get (cache_set c key v now) key now = Some v.
Proof.
  intros Httl. unfold cache_get, cache_set. simpl.
  set (alive := List.filter (live now) (links c)).
  set (others := List.filter (fun it => negb (has_key key it)) alive).
  assert (Ho : Forall (fun y => has_key key y = false) others)
    by apply Forall_filter_negb.
  assert (Hk : Forall (fun y => has_key key y = false)
                 (if existsb (has_key key) alive then others
                  else skipn (S (List.length others) - maxsize c) others)).
  { destruct (existsb _ _); [assumption|now apply Forall_skipn]. }
  rewrite (find_app_none _ _ _ Hk). unfold has_key at 1. simpl.
  rewrite String.eqb_refl. unfold live. simpl.
  rewrite Qle_bool_false; [reflexivity|]. lra.
Qed.

Lemma count_log p c st :
  count p (log_call c st) = if p c then S (count p st) else count p st.
Proof.
  unfold count, log_call. simpl. rewrite List.filter_app, List.length_app. simpl.
  destruct (p c); simpl; lia.
Qed.

Lemma find_vhost_hit w file_path vhost_dir st v :
  vhost_cache st !! file_path = Some v ->
  find_vhost_for_path w file_path vhost_dir st = (Return v, st).
Proof. intros H. unfold find_vhost_for_path, bind, get_state. now rewrite H. Qed.

Lemma resolve_root_hit w dir_path now st v :
  cache_get (git_root_cache st) dir_path now = Some v ->
  resolve_root w dir_path now st = (Return v, st).
Proof. intros H. unfold resolve_root, bind, get_state. now rewrite H. Qed.

Lemma resolve_remote_hit w dir_path now st v :
  cache_get (git_remote_cache st) dir_path now = Some v ->
  resolve_remote w dir_path now st = (Return v, st).
Proof. intros H. unfold resolve_remote, bind, get_state. now rewrite H. Qed.

Lemma get_git_blame_queries w file_path n repo st :
  file_path <> "" -> repo <> "" ->
  one_more_blame st (snd (get_git_blame w file_path n (Some repo) st)) /\
  git_blame_cache (snd (get_git_blame w file_path n (Some repo) st))
    = git_blame_cache st.
Proof.
  intros Hf Hr. apply String.eqb_neq in Hf, Hr.
  unfold get_git_blame. rewrite Hr.
  unfold try_except, bind, os_path_relpath, external, ret, raise.
  rewrite Hf. simpl.
  destruct (git_blame w repo (relpath w file_path repo) n) as [out|e]; simpl.
  - destruct (is_local_changes (parse_blame out)); simpl.
    + destruct (git_diff w repo (relpath w file_path repo)) as [d|e]; simpl.
      * destruct (last_modified_iso w file_path) as [m|e]; simpl;
          [|destruct (is_called_process_error e)]; simpl;
          unfold one_more_blame; rewrite !count_log; simpl; auto.
      * destruct (is_called_process_error e); simpl;
          unfold one_more_blame; rewrite !count_log; simpl; auto.
    + unfold one_more_blame; rewrite !count_log; simpl; auto.
  - destruct (is_called_process_error e); simpl;
      unfold one_more_blame; rewrite !count_log; simpl; auto.
Qed.

Lemma resolve_blame_queries w file_path n repo now st :
  file_path <> "" -> repo <> "" ->
  (0 < ttl (git_blame_cache st))%Q ->
  one_more_blame st (snd (resolve_blame w file_path n (Some repo) now st)).
Proof.
  intros Hf Hr Httl.
  destruct (get_git_blame_queries w file_path n repo st Hf Hr) as [H1 Hc].
  unfold resolve_blame. rewrite snd_bind.
  destruct (get_git_blame w file_path n (Some repo) st) as [[b|e] st1];
    simpl in *; [|assumption].
  unfold bind, set_git_blame_cache, get_state. simpl.
  rewrite cache_get_set by now rewrite Hc.
  simpl. exact H1.
Qed.

(** C2 fails on the code for the blame resolver. With the file, the
    directory and the blame key all cached and alive, an enrichment asks
    grep, [git rev-parse] and the remote command nothing, as the claim says,
    but it runs the blame query once more: line 242 calls [get_git_blame]
    before the cache is looked at. *)
Theorem cached_blame_is_queried_again :
  forall (w : world) (trace : string) (now : Q) (st : watcher)
         (g1 g2 : string) (v : option string) (root remote : string)
         (cached : option blame_info),
    file_line_search trace = Some (g1, g2) ->
    strip g1 <> "" ->
    vhost_cache st !! strip g1 = Some v ->
    cache_get (git_root_cache st) (abspath w (dirname (strip g1))) now
      = Some (Some root) ->
    root <> "" ->
    cache_get (git_remote_cache st) (abspath w (dirname (strip g1))) now
      = Some remote ->
    cache_get (git_blame_cache st)
              (strip g1 +:+ ":" +:+ str_of_int (int_of_digits g2)) now
      = Some cached ->
    (0 < ttl (git_blame_cache st))%Q ->
    count is_grep (snd (get_project_info w trace now st)) = count is_grep st /\
    count is_rev_parse (snd (get_project_info w trace now st))
      = count is_rev_parse st /\
    count is_remote (snd (get_project_info w trace now st))
      = count is_remote st /\
    count is_blame (snd (get_project_info w trace now st))
      = S (count is_blame st).
Proof.
  intros w trace now st g1 g2 v root remote cached Hm Hf Hv Hroot Hr Hrem _ Httl.
  unfold get_project_info. rewrite Hm.
  rewrite snd_bind, (find_vhost_hit _ _ _ _ _ Hv).
  rewrite snd_bind, (resolve_root_hit _ _ _ _ _ Hroot).
  rewrite snd_bind, (resolve_remote_hit _ _ _ _ _ Hrem).
  rewrite snd_bind.
  pose proof (resolve_blame_queries w (strip g1) (int_of_digits g2) root now st
                Hf Hr Httl) as H.
  destruct (resolve_blame w (strip g1) (int_of_digits g2) (Some root) now st)
    as [[b|e] st1]; simpl in *; exact H.
Qed.

Lemma cached_blame_is_queried_again_witness :
  count is_blame after_first_call = 1 /\
  (count is_grep (snd (get_project_info sample_world (sample_trace "3") 3600
                         after_first_call)) = count is_grep after_first_call /\
   count is_rev_parse (snd (get_project_info sample_world (sample_trace "3") 3600
                              after_first_call))
     = count is_rev_parse after_first_call /\
   count is_remote (snd (get_project_info sample_world (sample_trace "3") 3600
                           after_first_call))
     = count is_remote after_first_call /\
   count is_blame (snd (get_project_info sample_world (sample_trace "3") 3600
                          after_first_call))
     = S (count is_blame after_first_call)).
Proof.
  split; [vm_compute; reflexivity|].
  apply (cached_blame_is_queried_again sample_world (sample_trace "3") 3600
           after_first_call "/var/www/site/app/index.php" "3"
           (Some ("/etc/apache2/sites-enabled/site.conf"))
           "/var/www/site" "unknown"
           (Some {| author := Some "Ada"; email := Some "ada@example.org";
                    commit := Some "abcdef12"; summary := Some "Add index page";
                    is_local_changes := false |})).
  - vm_compute; reflexivity.
  - discriminate.
  - vm_compute; reflexivity.
  - vm_compute; reflexivity.
  - discriminate.
  - vm_compute; reflexivity.
  - vm_compute; reflexivity.
  - vm_compute; reflexivity.
Defined.

(** ** More on the grouper *)

Lemma tail_step_well_grouped st l t :
  well_grouped st -> well_grouped (snd (tail_step st l t)).
Proof.
  unfold well_grouped, tail_step. destruct (at_loop st) eqn:E; intros H.
  - destruct (String.eqb l ""); simpl; [now rewrite E|].
    rewrite H. destruct (error_start_pattern (strip l)); simpl; discriminate.
  - destruct (String.eqb l "").
    + destruct (Qle_bool _ _); simpl; [reflexivity|now rewrite E].
    + simpl. intros Hn. now apply app_eq_nil in Hn as [_ Hn].
Qed.

Lemma tail_run_well_grouped reads : forall st,
  well_grouped st -> well_grouped (snd (tail_run st reads)).
Proof.
  induction reads as [|[l t] reads IH]; intros st Hst; simpl; [assumption|].
  pose proof (tail_step_well_grouped st l t Hst) as H1.
  destruct (tail_step st l t) as [o st']. simpl in H1.
  specialize (IH st' H1). destruct (tail_run st' reads); assumption.
Qed.

Lemma tail_step_line st l t :
  well_grouped st -> l <> "" ->
  tail_step st l t =
  ([], {| current_trace := current_trace st ++ [strip l]; at_loop := Inner t |}).
Proof.
  intros Hw Hl. apply String.eqb_neq in Hl.
  unfold well_grouped in Hw. unfold tail_step.
  destruct (at_loop st); rewrite Hl; [|reflexivity].
  rewrite Hw. now destruct (error_start_pattern (strip l)).
Qed.

(** X1. From [tail_init] on, a line that is read never yields a trace and
    is never dropped: in either loop, and whether or not it matches the
    error-start pattern, it is stripped and appended to the accumulator
    (the flush of lines 131-133 cannot happen). *)
Theorem line_read_never_yields :
  forall (before : list (string * Q)) (l : string) (t : Q),
    l <> "" ->
    tail_step (snd (tail_run tail_init before)) l t =
    ([], {| current_trace :=
              current_trace (snd (tail_run tail_init before)) ++ [strip l];
            at_loop := Inner t |}).
Proof.
  intros before l t Hl. apply tail_step_line; [|assumption].
  apply tail_run_well_grouped. reflexivity.
Qed.




Lemma line_read_never_yields_witness :
  tail_step (snd (tail_run tail_init [("INFO ok" +:+ nl, 0%Q)]))
            ("PHP Notice: x" +:+ nl) 0.5%Q =
  ([], {| current_trace :=
            current_trace (snd (tail_run tail_init [("INFO ok" +:+ nl, 0%Q)]))
            ++ [strip ("PHP Notice: x" +:+ nl)];
          at_loop := Inner 0.5%Q |}).
Proof.
  apply (line_read_never_yields [("INFO ok" +:+ nl, 0%Q)]
           ("PHP Notice: x" +:+ nl) 0.5%Q).
  discriminate.
Defined.

(** X3. A trace is yielded only by an empty read in the inner loop that
    comes [fcntl_wait_time] or more after the last line; it is then the
    whole accumulator, and the grouper is back in its initial state. *)
Theorem yield_only_after_quiet_period :
  forall (before : list (string * Q)) (l : string) (t : Q),
    fst (tail_step (snd (tail_run tail_init before)) l t) <> [] ->
    l = "" /\
    exists start,
      at_loop (snd (tail_run tail_init before)) = Inner start /\
      (fcntl_wait_time <= t - start)%Q /\
      tail_step (snd (tail_run tail_init before)) l t =
      ([join nl (current_trace (snd (tail_run tail_init before)))], tail_init).
Proof.
  intros before l t H.
  pose proof (tail_run_well_grouped before tail_init eq_refl) as Hw.
  destruct (String.eqb l "") eqn:El.
  - apply String.eqb_eq in El. subst l. split; [reflexivity|].
    unfold tail_step in *. destruct (at_loop _) as [|start]; simpl in *.
    + now contradiction H.
    + exists start. split; [reflexivity|].
      destruct (Qle_bool fcntl_wait_time (t - start)) eqn:E; simpl in *.
      * split; [now apply Qle_bool_iff|reflexivity].
      * now contradiction H.
  - apply String.eqb_neq in El. rewrite (tail_step_line _ _ _ Hw El) in H.
    now contradiction H.
Qed.

Lemma yield_only_after_quiet_period_witness :
  "" = "" /\
  exists start,
    at_loop (snd (tail_run tail_init [("PHP Notice: x" +:+ nl, 1%Q)]))
      = Inner start /\
    (fcntl_wait_time <= 3 - start)%Q /\
    tail_step (snd (tail_run tail_init [("PHP Notice: x" +:+ nl, 1%Q)])) "" 3 =
    ([join nl (current_trace
                 (snd (tail_run tail_init [("PHP Notice: x" +:+ nl, 1%Q)])))],
     tail_init).
Proof.
  apply (yield_only_after_quiet_period [("PHP Notice: x" +:+ nl, 1%Q)] "" 3).
  discriminate.
Defined.
Lemma ancestor_succ j p : ancestor (S j) p = ancestor j (dirname p).
Proof. reflexivity. Qed.

Lemma grep_calls_shift vhost_dir p n k :
  map (fun j => CallGrep vhost_dir (ancestor j (dirname p))) (seq n k) =
  map (fun j => CallGrep vhost_dir (ancestor j p)) (seq (S n) k).
Proof.
  rewrite <- seq_shift, map_map. apply map_ext. intros j. reflexivity.
Qed.

(** ** More on the vhost resolver *)

Lemma vhost_loop_keeps_cache w vhost_dir : forall fuel p st r st',
  vhost_loop w vhost_dir fuel p st = Some (r, st') ->
  vhost_cache st' = vhost_cache st.
Proof.
  induction fuel as [|fuel IH]; intros p st r st' H; [discriminate|].
  simpl in H.
  destruct (negb (String.eqb (strip (grep_l w vhost_dir p)) ""));
    [now inversion H|].
  destruct (String.eqb (dirname p) p || String.eqb (dirname p) "/");
    [now inversion H|].
  now apply IH in H.
Qed.


Lemma vhost_loop_nearest w vhost_dir : forall fuel p st r st',
  vhost_loop w vhost_dir fuel p st = Some (r, st') ->
  exists k,
    calls st' =
      calls st ++ map (fun j => CallGrep vhost_dir (ancestor j p)) (seq 0 (S k)) /\
    (forall j, j < k -> strip (grep_l w vhost_dir (ancestor j p)) = "") /\
    match r with
    | Some found =>
        found = strip (grep_l w vhost_dir (ancestor k p)) /\ found <> ""
    | None =>
        strip (grep_l w vhost_dir (ancestor k p)) = "" /\
        (dirname (ancestor k p) = ancestor k p \/ dirname (ancestor k p) = "/")
    end.
Proof.
  induction fuel as [|fuel IH]; intros p st r st' H; [discriminate|].
  simpl in H.
  destruct (String.eqb (strip (grep_l w vhost_dir p)) "") eqn:Eg; simpl in H.
  - apply String.eqb_eq in Eg.
    destruct (String.eqb (dirname p) p || String.eqb (dirname p) "/") eqn:Es.
    + inversion H; subst. exists 0. simpl. split; [reflexivity|].
      split; [intros; lia|]. split; [assumption|].
      apply orb_true_iff in Es as [Es|Es]; apply String.eqb_eq in Es; auto.
    + apply IH in H as (k & Hc & Hj & Hr). exists (S k).
      split; [|split].
      * rewrite Hc. unfold log_call. cbn [calls].
        rewrite <- List.app_assoc. f_equal.
        change (seq 0 (S (S k))) with (0 :: seq 1 (S k)).
        cbn [map List.app ancestor]. f_equal.
        apply grep_calls_shift.
      * intros j Hlt. destruct j as [|j]; [assumption|].
        rewrite ancestor_succ. apply Hj. lia.
      * rewrite ancestor_succ. exact Hr.
  - inversion H; subst. exists 0. simpl. split; [reflexivity|].
    split; [intros; lia|]. split; [reflexivity|].
    now apply String.eqb_neq.
Qed.

(** X5. On a cache miss the walk asks grep about the directory of the file
    and then about its ancestors in turn, one query each, and stops at the
    first one for which grep prints something: the answer is that output,
    stripped. It answers [None] only when every directory asked gave
    nothing and the last one has itself or [/] as parent. The answer is
    stored under the file path. *)
Theorem vhost_nearest_ancestor :
  forall (w : world) (file_path vhost_dir : string) (st : watcher),
    vhost_cache st !! file_path = None ->
    exists v k,
      fst (find_vhost_for_path w file_path vhost_dir st) = Return v /\
      calls (snd (find_vhost_for_path w file_path vhost_dir st)) =
        calls st ++
        map (fun j => CallGrep vhost_dir (ancestor j (dirname file_path)))
            (seq 0 (S k)) /\
      (forall j, j < k ->
         strip (grep_l w vhost_dir (ancestor j (dirname file_path))) = "") /\
      match v with
      | Some found =>
          found = strip (grep_l w vhost_dir (ancestor k (dirname file_path))) /\
          found <> ""
      | None =>
          strip (grep_l w vhost_dir (ancestor k (dirname file_path))) = "" /\
          (dirname (ancestor k (dirname file_path))
             = ancestor k (dirname file_path) \/
           dirname (ancestor k (dirname file_path)) = "/")
      end /\
      vhost_cache (snd (find_vhost_for_path w file_path vhost_dir st))
        !! file_path = Some v.
Proof.
  intros w file_path vhost_dir st E.
  unfold find_vhost_for_path, bind, get_state. rewrite E.
  destruct (vhost_loop_fuel w vhost_dir
              (S (String.length (dirname file_path))) (dirname file_path) st)
    as (r & st' & H); [lia|].
  rewrite H. simpl.
  destruct (vhost_loop_nearest _ _ _ _ _ _ _ H) as (k & Hc & Hj & Hr).
  exists r, k. split; [reflexivity|]. split; [assumption|].
  split; [assumption|]. split; [assumption|]. apply lookup_insert_eq.
Qed.

Lemma vhost_nearest_ancestor_witness :
  exists v k,
    fst (find_vhost_for_path sample_world "/var/www/site/app/index.php"
           default_vhost_dir sample_watcher) = Return v /\
    calls (snd (find_vhost_for_path sample_world "/var/www/site/app/index.php"
                  default_vhost_dir sample_watcher)) =
      calls sample_watcher ++
      map (fun j => CallGrep default_vhost_dir
                      (ancestor j (dirname "/var/www/site/app/index.php")))
          (seq 0 (S k)) /\
    (forall j, j < k ->
       strip (grep_l sample_world default_vhost_dir
                (ancestor j (dirname "/var/www/site/app/index.php"))) = "") /\
    match v with
    | Some found =>
        found = strip (grep_l sample_world default_vhost_dir
                         (ancestor k (dirname "/var/www/site/app/index.php"))) /\
        found <> ""
    | None =>
        strip (grep_l sample_world default_vhost_dir
                 (ancestor k (dirname "/var/www/site/app/index.php"))) = "" /\
        (dirname (ancestor k (dirname "/var/www/site/app/index.php"))
           = ancestor k (dirname "/var/www/site/app/index.php") \/
         dirname (ancestor k (dirname "/var/www/site/app/index.php")) = "/")
    end /\
    vhost_cache (snd (find_vhost_for_path sample_world
                        "/var/www/site/app/index.php" default_vhost_dir
                        sample_watcher))
      !! "/var/www/site/app/index.php" = Some v.
Proof.
  apply (vhost_nearest_ancestor sample_world "/var/www/site/app/index.php"
           default_vhost_dir sample_watcher).
  reflexivity.
Defined.
(** ** The file and line reference *)

Lemma append_cons c (a b : string) : String c a +:+ b = String c (a +:+ b).
Proof. reflexivity. Qed.

Lemma prefix_split p : forall s,
  String.prefix p s = true -> s = p +:+ drop_str (String.length p) s.
Proof.
  induction p as [|c p IH]; intros s H; [reflexivity|].
  destruct s as [|d s]; [discriminate|]. simpl in H.
  destruct (Ascii.ascii_dec c d) as [->|]; [|discriminate].
  rewrite append_cons. simpl. f_equal. now apply IH.
Qed.

Lemma span_by_split p : forall s a b,
  span_by p s = (a, b) ->
  s = a +:+ b /\ all_chars p a = true /\
  match b with EmptyString => True | String c _ => p c = false end.
Proof.
  induction s as [|c s IH]; intros a b H; simpl in H.
  - inversion H; subst. auto.
  - destruct (p c) eqn:E.
    + destruct (span_by p s) as [a' b'] eqn:Es. inversion H; subst.
      destruct (IH _ _ eq_refl) as (H1 & H2 & H3).
      rewrite append_cons. simpl. rewrite E, H2. split; [congruence|auto].
    + inversion H; subst. auto.
Qed.

Lemma string_of_list_app l1 l2 :
  string_of_list_ascii (l1 ++ l2) =
  string_of_list_ascii l1 +:+ string_of_list_ascii l2.
Proof.
  induction l1 as [|c l1 IH]; [reflexivity|].
  simpl. rewrite append_cons. now rewrite IH.
Qed.

Lemma all_chars_app p a b :
  all_chars p (a +:+ b) = all_chars p a && all_chars p b.
Proof.
  induction a as [|c a IH]; [reflexivity|].
  rewrite append_cons. simpl. rewrite IH. now rewrite andb_assoc.
Qed.

Lemma all_chars_of_list p l :
  all_chars p (string_of_list_ascii l) = forallb p l.
Proof. induction l as [|c l IH]; simpl; [reflexivity|now rewrite IH]. Qed.

Lemma lazy_group_eq acc c s :
  lazy_group acc (String c s) =
  if negb (Nat.eqb (List.length acc) 0) && startswith (String c s) " on line "
     && negb (String.eqb (fst (span_by is_digit (drop_str 9 (String c s)))) "")
  then Some (string_of_list_ascii (rev acc),
             fst (span_by is_digit (drop_str 9 (String c s))))
  else if (code c =? 10)%N then None
  else lazy_group (c :: acc) s.
Proof. reflexivity. Qed.

Lemma lazy_group_sound : forall s acc g1 g2,
  lazy_group acc s = Some (g1, g2) ->
  exists rest post,
    s = rest +:+ " on line " +:+ g2 +:+ post /\
    g1 = string_of_list_ascii (rev acc) +:+ rest /\
    all_chars not_newline rest = true /\
    (acc <> [] \/ rest <> "") /\
    g2 <> "" /\ all_chars is_digit g2 = true /\ no_leading_digit post = true.
Proof.
  induction s as [|c s IH]; intros acc g1 g2 H; [discriminate|].
  rewrite lazy_group_eq in H.
  destruct (span_by is_digit (drop_str 9 (String c s))) as [d post] eqn:Es.
  cbn [fst] in H.
  destruct (negb (Nat.eqb (List.length acc) 0)
            && startswith (String c s) " on line "
            && negb (String.eqb d "")) eqn:E.
  - inversion H; subst; clear H.
    apply andb_true_iff in E as [E E3]. apply andb_true_iff in E as [E1 E2].
    apply prefix_split in E2.
    apply span_by_split in Es as (Hs & Hd & Hp).
    exists "", post. change (String.length " on line ") with 9 in E2.
    rewrite Hs in E2. split; [exact E2|].
    split; [now rewrite append_empty_r|]. split; [reflexivity|].
    split.
    { left. intros ->. discriminate. }
    split.
    { intros ->. discriminate. }
    split; [assumption|].
    destruct post; [reflexivity|]. simpl. now rewrite Hp.
  - destruct (code c =? 10)%N eqn:En; [discriminate|].
    apply IH in H as (rest & post' & Hs & Hg & Hn & _ & H2 & H3 & H4).
    exists (String c rest), post'. rewrite append_cons. split; [congruence|].
    split.
    { rewrite Hg. simpl. rewrite string_of_list_app. simpl.
      now rewrite append_assoc_str. }
    split.
    { simpl. unfold not_newline at 1. now rewrite En, Hn. }
    split; [right; discriminate|auto].
Qed.

Lemma file_line_search_sound : forall s g1 g2,
  file_line_search s = Some (g1, g2) ->
  exists pre post,
    s = pre +:+ "in " +:+ g1 +:+ " on line " +:+ g2 +:+ post /\
    g1 <> "" /\ all_chars not_newline g1 = true /\
    g2 <> "" /\ all_chars is_digit g2 = true /\ no_leading_digit post = true.
Proof.
  induction s as [|c s IH]; intros g1 g2 H.
  - discriminate.
  - cbn [file_line_search] in H.
    destruct (match_here (String c s)) as [[h1 h2]|] eqn:Em.
    + inversion H; subst; clear H. unfold match_here in Em.
      destruct (startswith (String c s) "in ") eqn:Ep; [|discriminate].
      apply prefix_split in Ep. change (String.length "in ") with 3 in Ep.
      apply lazy_group_sound in Em
        as (rest & post & Hs & Hg & Hn & Hne & H2 & H3 & H4).
      simpl in Hg. subst g1.
      exists "", post. split.
      { rewrite Ep at 1. rewrite Hs. now rewrite append_assoc_str. }
      split.
      { destruct Hne as [Hne|Hne]; [now contradiction Hne|assumption]. }
      auto.
    + apply IH in H as (pre & post & Hs & Hrest).
      exists (String c pre), post. rewrite append_cons. split; [congruence|auto].
Qed.

Lemma int_of_digits_acc_nonneg l : forall acc,
  (0 <= acc)%Z ->
  (0 <= fold_left (fun a c => a * 10 + Z.of_N (code c - 48))%Z l acc)%Z.
Proof.
  induction l as [|c l IH]; intros acc H; simpl; [assumption|].
  apply IH. lia.
Qed.

(** X6. When [get_project_info] finds a reference in a trace, the trace
    really reads [in <file> on line <digits>] at that place: the file group
    is non-empty and stays on one line, the line group is a maximal
    non-empty run of digits, and the line number taken from it is not
    negative. *)
Theorem file_line_reference_sound :
  forall (trace g1 g2 : string),
    file_line_search trace = Some (g1, g2) ->
    (exists pre post,
        trace = pre +:+ "in " +:+ g1 +:+ " on line " +:+ g2 +:+ post /\
        no_leading_digit post = true) /\
    g1 <> "" /\ all_chars not_newline g1 = true /\
    g2 <> "" /\ all_chars is_digit g2 = true /\
    (0 <= int_of_digits g2)%Z.
Proof.
  intros trace g1 g2 H.
  apply file_line_search_sound in H as (pre & post & Hs & H1 & H2 & H3 & H4 & H5).
  split; [exists pre, post; auto|].
  repeat (split; [assumption|]).
  unfold int_of_digits. apply int_of_digits_acc_nonneg. lia.
Qed.

Lemma file_line_reference_sound_witness :
  (exists pre post,
      "PHP Fatal error: X in a.php on line 10" =
        pre +:+ "in " +:+ "a.php" +:+ " on line " +:+ "10" +:+ post /\
      no_leading_digit post = true) /\
  "a.php" <> "" /\ all_chars not_newline "a.php" = true /\
  "10" <> "" /\ all_chars is_digit "10" = true /\
  (0 <= int_of_digits "10")%Z.
Proof.
  apply (file_line_reference_sound "PHP Fatal error: X in a.php on line 10"
           "a.php" "10").
  reflexivity.
Defined.
Lemma prefix_append p s : String.prefix p (p +:+ s) = true.
Proof.
  induction p as [|c p IH]; [now destruct s|].
  rewrite append_cons. simpl.
  destruct (Ascii.ascii_dec c c); [assumption|congruence].
Qed.

Lemma contains_prefix p s : String.prefix p s = true -> contains p s = true.
Proof. intros H. destruct s; cbn [contains]; now rewrite H. Qed.

Lemma contains_append p pre post : contains p (pre +:+ p +:+ post) = true.
Proof.
  induction pre as [|c pre IH].
  - apply contains_prefix. exact (prefix_append p post).
  - rewrite append_cons. cbn [contains]. rewrite IH. apply orb_true_r.
Qed.

Lemma no_on_line_no_match trace :
  contains " on line " trace = false -> file_line_search trace = None.
Proof.
  intros H. destruct (file_line_search trace) as [[g1 g2]|] eqn:E; [|reflexivity].
  apply file_line_search_sound in E as (pre & post & Hs & _).
  rewrite Hs in H.
  rewrite <- (append_assoc_str pre "in " _) in H.
  rewrite <- (append_assoc_str (pre +:+ "in ") g1 _) in H.
  rewrite contains_append in H. discriminate.
Qed.

(** ** Delivery *)

(** X7. A trace that nowhere reads [ on line ] is not enriched:
    [get_project_info] answers [None] and touches neither a cache nor the
    outside world. With a webhook configured, [send_to_n8n] still posts the
    trace, once, and nothing else leaves the process. *)
Theorem unreferenced_trace_is_posted_bare :
  forall (w : world) (trace : string) (now : Q) (st : watcher) (url : string),
    n8n_url (config st) = Some url -> url <> "" ->
    contains " on line " trace = false ->
    get_project_info w trace now st = (Return None, st) /\
    send_to_n8n w trace now st = (Return tt, log_call (CallPost url) st).
Proof.
  intros w trace now st url Hu Hne Hc.
  apply no_on_line_no_match in Hc. apply String.eqb_neq in Hne.
  assert (Hg : get_project_info w trace now st = (Return None, st)).
  { unfold get_project_info. now rewrite Hc. }
  split; [assumption|].
  unfold send_to_n8n, bind at 1, get_state. rewrite Hu, Hne.
  unfold try_except, bind. rewrite Hg. unfold external.
  now destruct (session_post w url trace None) as [[]|e].
Qed.

Lemma unreferenced_trace_is_posted_bare_witness :
  get_project_info sample_world "[error] server reached MaxRequestWorkers" 0
    sample_watcher = (Return None, sample_watcher) /\
  send_to_n8n sample_world "[error] server reached MaxRequestWorkers" 0
    sample_watcher =
  (Return tt,
   log_call (CallPost "http://n8n.local/webhook/php-errors") sample_watcher).
Proof.
  apply (unreferenced_trace_is_posted_bare sample_world
           "[error] server reached MaxRequestWorkers" 0 sample_watcher
           "http://n8n.local/webhook/php-errors").
  - reflexivity.
  - discriminate.
  - reflexivity.
Defined.

(** ** What a method may add to the log *)

Section LogsOnly.
Variable P : call -> Prop.

Lemma logs_only_ret {A} (a : A) : logs_only P (ret a).
Proof. intros st. exists []. simpl. now rewrite app_nil_r. Qed.

Lemma logs_only_raise {A} e : logs_only P (@raise A e).
Proof. intros st. exists []. simpl. now rewrite app_nil_r. Qed.

Lemma logs_only_get_state : logs_only P get_state.
Proof. intros st. exists []. simpl. now rewrite app_nil_r. Qed.

Lemma logs_only_external {A} c (r : res A) : P c -> logs_only P (external c r).
Proof. intros H st. exists [c]. simpl. split; [reflexivity|now constructor]. Qed.

Lemma logs_only_bind {A B} (m : M A) (f : A -> M B) :
  logs_only P m -> (forall a, logs_only P (f a)) -> logs_only P (bind m f).
Proof.
  intros Hm Hf st. rewrite snd_bind. destruct (Hm st) as (l1 & H1 & F1).
  destruct (m st) as [[a|e] st1]; simpl in *.
  - destruct (Hf a st1) as (l2 & H2 & F2). exists (l1 ++ l2).
    rewrite H2, H1, <- List.app_assoc. split; [reflexivity|now apply Forall_app].
  - eauto.
Qed.

Lemma logs_only_try_except {A} (m h : M A) handled :
  logs_only P m -> logs_only P h -> logs_only P (try_except m handled h).
Proof.
  intros Hm Hh st. unfold try_except. destruct (Hm st) as (l1 & H1 & F1).
  destruct (m st) as [[a|e] st1]; simpl in *; [eauto|].
  destruct (handled e); simpl; [|eauto].
  destruct (Hh st1) as (l2 & H2 & F2). exists (l1 ++ l2).
  rewrite H2, H1, <- List.app_assoc. split; [reflexivity|now apply Forall_app].
Qed.

Lemma logs_only_set_vhost_cache k v : logs_only P (set_vhost_cache k v).
Proof. intros st. exists []. simpl. now rewrite app_nil_r. Qed.

Lemma logs_only_set_git_root_cache k v t : logs_only P (set_git_root_cache k v t).
Proof. intros st. exists []. simpl. now rewrite app_nil_r. Qed.

Lemma logs_only_set_git_remote_cache k v t :
  logs_only P (set_git_remote_cache k v t).
Proof. intros st. exists []. simpl. now rewrite app_nil_r. Qed.

Lemma logs_only_set_git_blame_cache k v t :
  logs_only P (set_git_blame_cache k v t).
Proof. intros st. exists []. simpl. now rewrite app_nil_r. Qed.

Lemma vhost_loop_logs w vhost_dir :
  (forall p, P (CallGrep vhost_dir p)) ->
  forall fuel p st r st',
    vhost_loop w vhost_dir fuel p st = Some (r, st') ->
    exists l, calls st' = calls st ++ l /\ Forall P l.
Proof.
  intros HP fuel p st r st' H.
  apply vhost_loop_nearest in H as (k & Hc & _).
  eexists. split; [exact Hc|]. apply List.Forall_forall. intros c Hin.
  apply in_map_iff in Hin as (j & <- & _). apply HP.
Qed.

Lemma logs_only_find_vhost w file_path vhost_dir :
  (forall p, P (CallGrep vhost_dir p)) ->
  logs_only P (find_vhost_for_path w file_path vhost_dir).
Proof.
  intros HP. unfold find_vhost_for_path.
  apply logs_only_bind; [apply logs_only_get_state|]. intros st0.
  destruct (vhost_cache st0 !! file_path); [apply logs_only_ret|].
  apply logs_only_bind.
  - intros st.
    destruct (vhost_loop w vhost_dir _ (dirname file_path) st)
      as [[found st']|] eqn:E; simpl.
    + now apply (vhost_loop_logs w vhost_dir HP _ _ _ _ _ E).
    + exists []. now rewrite app_nil_r.
  - intros found. apply logs_only_bind; [apply logs_only_set_vhost_cache|].
    intros _. apply logs_only_ret.
Qed.

Lemma logs_only_get_git_blame w file_path n repo_path :
  (forall a b k, P (CallBlame a b k)) -> (forall a b, P (CallDiff a b)) ->
  (forall a, P (CallMtime a)) ->
  logs_only P (get_git_blame w file_path n repo_path).
Proof.
  intros HB HD HM. unfold get_git_blame.
  destruct repo_path as [repo|]; [|apply logs_only_ret].
  destruct (String.eqb repo ""); [apply logs_only_ret|].
  apply logs_only_try_except; [|apply logs_only_ret].
  apply logs_only_bind.
  { unfold os_path_relpath. destruct (String.eqb file_path "");
      [apply logs_only_raise|apply logs_only_ret]. }
  intros rel. apply logs_only_bind; [now apply logs_only_external|].
  intros out. destruct (is_local_changes (parse_blame out));
    [|apply logs_only_ret].
  apply logs_only_bind; [now apply logs_only_external|]. intros d.
  apply logs_only_bind; [now apply logs_only_external|]. intros m.
  apply logs_only_ret.
Qed.

Lemma logs_only_resolve_root w dir_path now :
  (forall a, P (CallRevParse a)) -> logs_only P (resolve_root w dir_path now).
Proof.
  intros HP. unfold resolve_root.
  apply logs_only_bind; [apply logs_only_get_state|]. intros st0.
  destruct (cache_get _ _ _); [apply logs_only_ret|].
  apply logs_only_bind.
  - apply logs_only_try_except; [|apply logs_only_ret].
    apply logs_only_bind; [now apply logs_only_external|].
    intros out. apply logs_only_ret.
  - intros r. apply logs_only_bind; [apply logs_only_set_git_root_cache|].
    intros _. apply logs_only_ret.
Qed.

Lemma logs_only_resolve_remote w dir_path now :
  (forall a, P (CallRemote a)) -> logs_only P (resolve_remote w dir_path now).
Proof.
  intros HP. unfold resolve_remote.
  apply logs_only_bind; [apply logs_only_get_state|]. intros st0.
  destruct (cache_get _ _ _); [apply logs_only_ret|].
  apply logs_only_bind; [now apply logs_only_external|]. intros out.
  apply logs_only_bind; [apply logs_only_set_git_remote_cache|].
  intros _. apply logs_only_ret.
Qed.

Lemma logs_only_resolve_blame w file_path n repo_root now :
  (forall a b k, P (CallBlame a b k)) -> (forall a b, P (CallDiff a b)) ->
  (forall a, P (CallMtime a)) ->
  logs_only P (resolve_blame w file_path n repo_root now).
Proof.
  intros HB HD HM. unfold resolve_blame.
  apply logs_only_bind; [now apply logs_only_get_git_blame|]. intros b.
  apply logs_only_bind; [apply logs_only_set_git_blame_cache|]. intros _.
  apply logs_only_bind; [apply logs_only_get_state|]. intros st0.
  destruct (cache_get _ _ _); [apply logs_only_ret|].
  apply logs_only_bind; [now apply logs_only_get_git_blame|]. intros b'.
  apply logs_only_bind; [apply logs_only_set_git_blame_cache|]. intros _.
  apply logs_only_ret.
Qed.

Lemma logs_only_get_project_info w trace now :
  (forall c, is_post c = false -> P c) ->
  logs_only P (get_project_info w trace now).
Proof.
  intros HP. unfold get_project_info.
  destruct (file_line_search trace) as [[g1 g2]|]; [|apply logs_only_ret].
  apply logs_only_bind; [apply logs_only_find_vhost; intros; now apply HP|].
  intros found.
  apply logs_only_bind; [apply logs_only_resolve_root; intros; now apply HP|].
  intros root.
  apply logs_only_bind; [apply logs_only_resolve_remote; intros; now apply HP|].
  intros remote.
  apply logs_only_bind;
    [apply logs_only_resolve_blame; intros; now apply HP|].
  intros b. apply logs_only_ret.
Qed.

End LogsOnly.

Lemma count_app_none p st st' l :
  calls st' = calls st ++ l -> Forall (fun c => p c = false) l ->
  count p st' = count p st.
Proof.
  intros Hc Hf. unfold count. rewrite Hc, List.filter_app, List.length_app.
  assert (List.filter p l = []) as ->; [|simpl; lia].
  clear Hc. induction l as [|c l IH]; simpl; [reflexivity|].
  inversion Hf as [|? ? Hx Hl]; subst. rewrite Hx. now apply IH.
Qed.

(** X8. The enrichment itself never posts. When it raises, the trace is
    not delivered at all: [send_to_n8n] swallows the exception, returns,
    and leaves the watcher as the failed enrichment left it. *)
Theorem failed_enrichment_drops_trace :
  forall (w : world) (trace : string) (now : Q) (st : watcher)
         (url : string) (e : exn),
    n8n_url (config st) = Some url -> url <> "" ->
    fst (get_project_info w trace now st) = Raise e ->
    send_to_n8n w trace now st =
      (Return tt, snd (get_project_info w trace now st)) /\
    count is_post (snd (send_to_n8n w trace now st)) = count is_post st.
Proof.
  intros w trace now st url e Hu Hne H. apply String.eqb_neq in Hne.
  assert (Hs : send_to_n8n w trace now st =
               (Return tt, snd (get_project_info w trace now st))).
  { unfold send_to_n8n, bind at 1, get_state. rewrite Hu, Hne.
    unfold try_except, bind.
    destruct (get_project_info w trace now st) as [[d|e'] st']; simpl in *;
      [discriminate|reflexivity]. }
  split; [assumption|]. rewrite Hs. simpl.
  destruct (logs_only_get_project_info (fun c => is_post c = false) w trace now
              (fun c H => H) st) as (l & Hl & Hf).
  now apply (count_app_none _ _ _ _ Hl).
Qed.

Lemma failed_enrichment_drops_trace_witness :
  send_to_n8n vanished_repo_world (sample_trace "7") 0 sample_watcher =
    (Return tt,
     snd (get_project_info vanished_repo_world (sample_trace "7") 0
            sample_watcher)) /\
  count is_post (snd (send_to_n8n vanished_repo_world (sample_trace "7") 0
                        sample_watcher)) = count is_post sample_watcher.
Proof.
  apply (failed_enrichment_drops_trace vanished_repo_world (sample_trace "7") 0
           sample_watcher "http://n8n.local/webhook/php-errors" OSError).
  - reflexivity.
  - discriminate.
  - vm_compute; reflexivity.
Defined.
(** ** Cached answers and their expiry *)

Lemma cache_get_set_time {V} (c : TTLCache V) key v t1 t2 :
  cache_get (cache_set c key v t1) key t2 =
  if Qle_bool (t1 + ttl c) t2 then None else Some v.
Proof.
  unfold cache_get, cache_set. simpl.
  set (alive := List.filter (live t1) (links c)).
  set (others := List.filter (fun it => negb (has_key key it)) alive).
  assert (Ho : Forall (fun y => has_key key y = false) others)
    by apply Forall_filter_negb.
  assert (Hk : Forall (fun y => has_key key y = false)
                 (if existsb (has_key key) alive then others
                  else skipn (S (List.length others) - maxsize c) others)).
  { destruct (existsb _ _); [assumption|now apply Forall_skipn]. }
  rewrite (find_app_none _ _ _ Hk). unfold has_key at 1. simpl.
  rewrite String.eqb_refl. unfold live. simpl.
  now destruct (Qle_bool (t1 + ttl c) t2).
Qed.




(** ** Blame *)

Lemma blame_line_local b ln :
  is_local_changes (blame_line b ln) = is_local_changes b || zero_commit ln.
Proof.
  unfold blame_line.
  destruct (zero_commit ln);
    repeat (destruct (startswith _ _) || destruct (hex40 _)); simpl;
    now rewrite ?orb_true_r, ?orb_false_r.
Qed.

Lemma fold_blame_line_local lns : forall b,
  is_local_changes (fold_left blame_line lns b) =
  is_local_changes b || existsb zero_commit lns.
Proof.
  induction lns as [|l r IH]; intros b; simpl; [now rewrite orb_false_r|].
  now rewrite IH, blame_line_local, orb_assoc.
Qed.

(** X11. For a line that is committed (no line of the blame output begins
    with eight zeros) [get_git_blame] runs the blame query and nothing
    else, no diff and no look at the file, and returns the parsed
    dictionary as it is, with [is_local_changes] false. *)
Theorem committed_line_blame :
  forall (w : world) (file_path : string) (line_number : Z) (repo : string)
         (blame_output : string) (st : watcher),
    file_path <> "" -> repo <> "" ->
    git_blame w repo (relpath w file_path repo) line_number
      = Return blame_output ->
    existsb zero_commit (splitlines blame_output) = false ->
    get_git_blame w file_path line_number (Some repo) st =
      (Return (Some (parse_blame blame_output)),
       log_call (CallBlame repo (relpath w file_path repo) line_number) st) /\
    is_local_changes (parse_blame blame_output) = false.
Proof.
  intros w file_path n repo out st Hf Hr Hb Hz.
  apply String.eqb_neq in Hf, Hr.
  assert (Hl : is_local_changes (parse_blame out) = false).
  { unfold parse_blame. now rewrite fold_blame_line_local, Hz. }
  split; [|assumption].
  unfold get_git_blame. rewrite Hr.
  unfold try_except, bind, os_path_relpath, external, ret, raise.
  rewrite Hf. simpl. rewrite Hb. simpl. now rewrite Hl.
Qed.

Lemma committed_line_blame_witness :
  get_git_blame sample_world "/var/www/site/app/index.php" 3
    (Some "/var/www/site") sample_watcher =
    (Return (Some (parse_blame committed_blame)),
     log_call (CallBlame "/var/www/site"
                 (relpath sample_world "/var/www/site/app/index.php"
                    "/var/www/site") 3) sample_watcher) /\
  is_local_changes (parse_blame committed_blame) = false.
Proof.
  apply (committed_line_blame sample_world "/var/www/site/app/index.php" 3
           "/var/www/site" committed_blame sample_watcher).
  - discriminate.
  - discriminate.
  - reflexivity.
  - reflexivity.
Defined.

Lemma hex_not_space c : is_hex_lower c = true -> is_space c = false.
Proof.
  unfold is_hex_lower, is_digit, is_space. generalize (code c). intros n H.
  apply orb_true_iff in H as [H|H]; apply andb_true_iff in H as [H1 H2];
    apply N.leb_le in H1, H2;
    apply orb_false_iff; split; apply andb_false_iff;
    rewrite !N.leb_gt; lia.
Qed.

Lemma take_span p : forall n s,
  all_chars p (take_str n s) = true ->
  take_str n (fst (span_by p s)) = take_str n s.
Proof.
  induction n as [|n IH]; intros s H; [reflexivity|].
  destruct s as [|c s]; [reflexivity|]. simpl in *.
  apply andb_true_iff in H as [Hc Hs]. rewrite Hc.
  destruct (span_by p s) as [a b] eqn:E. simpl.
  f_equal. specialize (IH s Hs). now rewrite E in IH.
Qed.

Lemma all_chars_take p : forall n m s,
  n <= m -> all_chars p (take_str m s) = true ->
  all_chars p (take_str n s) = true.
Proof.
  induction n as [|n IH]; intros m s Hle H; [reflexivity|].
  destruct m as [|m]; [lia|]. destruct s as [|c s]; [reflexivity|].
  simpl in *. apply andb_true_iff in H as [Hc Hs]. rewrite Hc. simpl.
  apply (IH m); [lia|assumption].
Qed.

Lemma length_take : forall n m s,
  n <= m -> String.length (take_str m s) = m ->
  String.length (take_str n s) = n.
Proof.
  induction n as [|n IH]; intros m s Hle H; [reflexivity|].
  destruct m as [|m]; [lia|]. destruct s as [|c s]; [simpl in H; lia|].
  simpl in *. f_equal. apply (IH m); lia.
Qed.

Lemma all_chars_impl (p q : ascii -> bool) s :
  (forall c, p c = true -> q c = true) ->
  all_chars p s = true -> all_chars q s = true.
Proof.
  intros Hpq. induction s as [|c s IH]; simpl; [reflexivity|].
  intros H. apply andb_true_iff in H as [Hc Hs].
  now rewrite (Hpq c Hc), IH.
Qed.

Lemma hex40_commit ln :
  hex40 ln = true ->
  take_str 8 (first_field ln) = take_str 8 ln /\
  String.length (take_str 8 ln) = 8 /\
  all_chars is_hex_lower (take_str 8 ln) = true.
Proof.
  unfold hex40. intros H. apply andb_true_iff in H as [Hlen Hhex].
  apply Nat.eqb_eq in Hlen.
  assert (H8 : all_chars is_hex_lower (take_str 8 ln) = true)
    by (apply (all_chars_take _ 8 40); [lia|assumption]).
  split; [|split; [apply (length_take 8 40); [lia|assumption]|assumption]].
  unfold first_field.
  assert (Hl : lstrip_by is_space ln = ln).
  { destruct ln as [|c s]; [reflexivity|]. simpl in H8.
    apply andb_true_iff in H8 as [Hc _]. simpl.
    now rewrite (hex_not_space c Hc). }
  rewrite Hl. apply take_span.
  apply (all_chars_impl is_hex_lower); [|assumption].
  intros c Hc. now rewrite (hex_not_space c Hc).
Qed.

Lemma blame_line_commit_ok b ln : commit_ok b -> commit_ok (blame_line b ln).
Proof.
  intros H. unfold blame_line.
  assert (H' : commit_ok (if zero_commit ln then with_local_changes b else b))
    by now destruct (zero_commit ln).
  revert H'. generalize (if zero_commit ln then with_local_changes b else b).
  intros b' H'.
  destruct (startswith ln "author "); [exact H'|].
  destruct (startswith ln "author-mail "); [exact H'|].
  destruct (startswith ln "summary "); [exact H'|].
  destruct (hex40 ln) eqn:E; [|exact H'].
  destruct (hex40_commit ln E) as (H1 & H2 & H3).
  unfold commit_ok. cbn [commit with_commit]. rewrite H1. auto.
Qed.

(** X12. The commit that [get_git_blame] reports, when it reports one, is
    always eight characters of [0-9a-f]: the first eight of a line of the
    blame output that begins with forty such characters. *)
Theorem blame_commit_is_short_hash :
  forall (blame_output c : string),
    commit (parse_blame blame_output) = Some c ->
    String.length c = 8 /\ all_chars is_hex_lower c = true /\
    exists ln,
      In ln (splitlines blame_output) /\ hex40 ln = true /\ c = take_str 8 ln.
Proof.
  intros out c H.
  assert (Hinv : forall lns b,
             (commit_ok b /\
              match commit b with
              | Some c => exists ln, In ln (splitlines out) /\ hex40 ln = true
                                     /\ c = take_str 8 ln
              | None => True
              end) ->
             (forall l, In l lns -> In l (splitlines out)) ->
             commit_ok (fold_left blame_line lns b) /\
             match commit (fold_left blame_line lns b) with
             | Some c => exists ln, In ln (splitlines out) /\ hex40 ln = true
                                    /\ c = take_str 8 ln
             | None => True
             end).
  { induction lns as [|l r IH]; intros b Hb Hin; [exact Hb|].
    simpl. apply IH; [|intros; apply Hin; now right].
    destruct Hb as [Hok Hsrc]. split; [now apply blame_line_commit_ok|].
    unfold blame_line.
    assert (Hsrc' : match commit (if zero_commit l then with_local_changes b
                                  else b) with
                    | Some c => exists ln, In ln (splitlines out)
                                  /\ hex40 ln = true /\ c = take_str 8 ln
                    | None => True
                    end) by now destruct (zero_commit l).
    revert Hsrc'. generalize (if zero_commit l then with_local_changes b else b).
    intros b' Hsrc'.
    destruct (startswith l "author "); [exact Hsrc'|].
    destruct (startswith l "author-mail "); [exact Hsrc'|].
    destruct (startswith l "summary "); [exact Hsrc'|].
    destruct (hex40 l) eqn:E; [|exact Hsrc'].
    cbn [commit with_commit]. exists l.
    split; [apply Hin; now left|]. split; [assumption|].
    now destruct (hex40_commit l E) as (-> & _). }
  destruct (Hinv (splitlines out) empty_blame) as [Hok Hsrc].
  { split; exact I. }
  { auto. }
  unfold parse_blame in H. unfold commit_ok in Hok.
  rewrite H in Hok, Hsrc. destruct Hok. auto.
Qed.

Lemma blame_commit_is_short_hash_witness :
  String.length "abcdef12" = 8 /\ all_chars is_hex_lower "abcdef12" = true /\
  exists ln,
    In ln (splitlines committed_blame) /\ hex40 ln = true /\
    "abcdef12" = take_str 8 ln.
Proof.
  apply (blame_commit_is_short_hash committed_blame "abcdef12").
  reflexivity.
Defined.
Lemma vhost_loop_frame w vhost_dir : forall fuel p st r st',
  vhost_loop w vhost_dir fuel p st = Some (r, st') ->
  git_root_cache st' = git_root_cache st.
Proof.
  induction fuel as [|fuel IH]; intros p st r st' H; [discriminate|].
  simpl in H.
  destruct (negb (String.eqb (strip (grep_l w vhost_dir p)) ""));
    [now inversion H|].
  destruct (String.eqb (dirname p) p || String.eqb (dirname p) "/");
    [now inversion H|].
  now apply IH in H.
Qed.

Lemma find_vhost_frame w file_path vhost_dir st :
  exists v st1,
    find_vhost_for_path w file_path vhost_dir st = (Return v, st1) /\
    git_root_cache st1 = git_root_cache st.
Proof.
  unfold find_vhost_for_path, bind, get_state.
  destruct (vhost_cache st !! file_path) as [v|]; [simpl; eauto|].
  destruct (vhost_loop_fuel w vhost_dir
              (S (String.length (dirname file_path))) (dirname file_path) st)
    as (r & st' & H); [lia|].
  rewrite H. simpl. do 2 eexists. split; [reflexivity|]. simpl.
  now apply vhost_loop_frame in H.
Qed.

Lemma resolve_blame_none w file_path n now st :
  exists st',
    resolve_blame w file_path n None now st = (Return None, st') /\
    calls st' = calls st.
Proof.
  unfold resolve_blame, bind, get_git_blame, ret, set_git_blame_cache, get_state.
  simpl. rewrite cache_get_set_time.
  destruct (Qle_bool _ _); simpl; eauto.
Qed.

Lemma count_same_calls p st st' : calls st' = calls st -> count p st' = count p st.
Proof. unfold count. now intros ->. Qed.

(** X13. For a file in a directory that is no repository (a miss in the
    root cache, [git rev-parse] exiting non-zero) the enrichment still
    returns its dictionary, with [blame] absent, and no blame query is
    run. *)
Theorem no_repository_no_blame :
  forall (w : world) (trace : string) (now : Q) (st : watcher)
         (g1 g2 : string),
    file_line_search trace = Some (g1, g2) ->
    cache_get (git_root_cache st) (abspath w (dirname (strip g1))) now = None ->
    git_rev_parse w (abspath w (dirname (strip g1))) = Raise CalledProcessError ->
    (exists r,
        fst (get_project_info w trace now st) = Return (Some r) /\
        blame r = None) /\
    count is_blame (snd (get_project_info w trace now st)) = count is_blame st.
Proof.
  intros w trace now st g1 g2 Hm Hmiss Hg.
  unfold get_project_info. rewrite Hm.
  set (dir := abspath w (dirname (strip g1))) in *.
  destruct (find_vhost_frame w (strip g1) default_vhost_dir st)
    as (found & st1 & Hv & Hc1).
  assert (N1 : count is_blame st1 = count is_blame st).
  { destruct (logs_only_find_vhost (fun c => is_blame c = false) w (strip g1)
                default_vhost_dir (fun _ => eq_refl) st) as (l & Hl & Hf).
    rewrite Hv in Hl. now apply (count_app_none _ _ _ _ Hl). }
  assert (Hroot : exists st2,
             resolve_root w dir now st1 = (Return None, st2) /\
             count is_blame st2 = count is_blame st1).
  { unfold resolve_root, bind, get_state, try_except, external, ret.
    rewrite Hc1, Hmiss. simpl. rewrite Hg. simpl.
    eexists. split; [reflexivity|]. unfold count. simpl.
    rewrite List.filter_app. simpl. now rewrite app_nil_r. }
  destruct Hroot as (st2 & Hr & N2).
  destruct (resolve_remote_returns w dir now st2) as (remote & Hrem).
  assert (N3 : count is_blame (snd (resolve_remote w dir now st2))
               = count is_blame st2).
  { destruct (logs_only_resolve_remote (fun c => is_blame c = false) w dir now
                (fun _ => eq_refl) st2) as (l & Hl & Hf).
    now apply (count_app_none _ _ _ _ Hl). }
  destruct (resolve_remote w dir now st2) as [rr st3] eqn:Er. simpl in *.
  subst rr.
  destruct (resolve_blame_none w (strip g1) (int_of_digits g2) now st3)
    as (st4 & Hb & N4).
  apply (count_same_calls is_blame) in N4.
  rewrite fst_bind, snd_bind, Hv, fst_bind, snd_bind, Hr,
    fst_bind, snd_bind, Er, fst_bind, snd_bind, Hb. simpl.
  split; [eexists; split; reflexivity|]. lia.
Qed.

Lemma no_repository_no_blame_witness :
  (exists r,
      fst (get_project_info sample_world
             "PHP Notice: y in /srv/plain/a.php on line 4" 0 sample_watcher)
        = Return (Some r) /\
      blame r = None) /\
  count is_blame (snd (get_project_info sample_world
                         "PHP Notice: y in /srv/plain/a.php on line 4" 0
                         sample_watcher)) = count is_blame sample_watcher.
Proof.
  apply (no_repository_no_blame sample_world
           "PHP Notice: y in /srv/plain/a.php on line 4" 0 sample_watcher
           "/srv/plain/a.php" "4").
  - reflexivity.
  - reflexivity.
  - reflexivity.
Defined.

(** ** The diff scan, continued *)

Lemma diff_scan_in n lns : forall c d,
  diff_scan n c lns = Some d -> In d lns.
Proof.
  induction lns as [|l r IH]; intros c d H; simpl in H; [discriminate|].
  destruct (hunk_header_pattern l) as [[g1 g2]|].
  - right. now apply IH in H.
  - fold (body_line l) in H. destruct (body_line l); simpl in H.
    + destruct (c =? n)%Z.
      * left. now inversion H.
      * right. destruct (negb (startswith l "-")); now apply IH in H.
    + right. now apply IH in H.
Qed.

(** X14. The line that the diff scan selects is always a line of the diff
    that begins with [+], [-] or a blank, never a hunk header, and never
    empty: so the summary of an uncommitted line shows text of the diff or
    no diff line at all. *)
Theorem selected_line_is_body_line :
  forall (diff_output : string) (line_number : Z) (d : string),
    find_line_diff diff_output line_number = Some d ->
    In d (splitlines diff_output) /\ body_line d = true /\
    hunk_header_pattern d = None /\ d <> "".
Proof.
  intros diff_output n d H. unfold find_line_diff in H.
  pose proof (diff_scan_body _ _ _ _ H) as Hb.
  split; [now apply diff_scan_in in H|]. split; [assumption|].
  split; [now apply body_line_no_header|].
  intros ->. discriminate.
Qed.

Lemma selected_line_is_body_line_witness :
  In "-y" (splitlines replaced_diff) /\ body_line "-y" = true /\
  hunk_header_pattern "-y" = None /\ "-y" <> "".
Proof.
  apply (selected_line_is_body_line replaced_diff 7 "-y").
  reflexivity.
Defined.
(** ** The configuration is only read *)

Lemma keeps_config_ret {A} (a : A) : keeps_config (ret a).
Proof. intros st. reflexivity. Qed.

Lemma keeps_config_raise {A} e : keeps_config (@raise A e).
Proof. intros st. reflexivity. Qed.

Lemma keeps_config_external {A} c (r : res A) : keeps_config (external c r).
Proof. intros st. reflexivity. Qed.

Lemma keeps_config_bind {A B} (m : M A) (f : A -> M B) :
  keeps_config m -> (forall a, keeps_config (f a)) -> keeps_config (bind m f).
Proof.
  intros Hm Hf st. rewrite snd_bind. specialize (Hm st).
  destruct (m st) as [[a|e] st1]; simpl in *; [|assumption].
  now rewrite Hf.
Qed.

Lemma keeps_config_try_except {A} (m h : M A) handled :
  keeps_config m -> keeps_config h -> keeps_config (try_except m handled h).
Proof.
  intros Hm Hh st. unfold try_except. specialize (Hm st).
  destruct (m st) as [[a|e] st1]; simpl in *; [assumption|].
  destruct (handled e); simpl; [|assumption]. now rewrite Hh.
Qed.

Lemma vhost_loop_keeps_config w vhost_dir : forall fuel p st r st',
  vhost_loop w vhost_dir fuel p st = Some (r, st') -> config st' = config st.
Proof.
  induction fuel as [|fuel IH]; intros p st r st' H; [discriminate|].
  simpl in H.
  destruct (negb (String.eqb (strip (grep_l w vhost_dir p)) ""));
    [now inversion H|].
  destruct (String.eqb (dirname p) p || String.eqb (dirname p) "/");
    [now inversion H|].
  now apply IH in H.
Qed.

Lemma keeps_config_find_vhost w file_path vhost_dir :
  keeps_config (find_vhost_for_path w file_path vhost_dir).
Proof.
  unfold find_vhost_for_path.
  apply keeps_config_bind; [intros st; reflexivity|]. intros st0.
  destruct (vhost_cache st0 !! file_path); [apply keeps_config_ret|].
  apply keeps_config_bind.
  - intros st.
    destruct (vhost_loop w vhost_dir _ (dirname file_path) st)
      as [[found st']|] eqn:E; simpl; [|reflexivity].
    now apply vhost_loop_keeps_config in E.
  - intros found. apply keeps_config_bind; [intros st; reflexivity|].
    intros _. apply keeps_config_ret.
Qed.

Lemma keeps_config_get_git_blame w file_path n repo_path :
  keeps_config (get_git_blame w file_path n repo_path).
Proof.
  unfold get_git_blame.
  destruct repo_path as [repo|]; [|apply keeps_config_ret].
  destruct (String.eqb repo ""); [apply keeps_config_ret|].
  apply keeps_config_try_except; [|apply keeps_config_ret].
  apply keeps_config_bind.
  { unfold os_path_relpath. destruct (String.eqb file_path "");
      [apply keeps_config_raise|apply keeps_config_ret]. }
  intros rel. apply keeps_config_bind; [apply keeps_config_external|].
  intros out. destruct (is_local_changes (parse_blame out));
    [|apply keeps_config_ret].
  apply keeps_config_bind; [apply keeps_config_external|]. intros d.
  apply keeps_config_bind; [apply keeps_config_external|]. intros m.
  apply keeps_config_ret.
Qed.

Lemma keeps_config_get_project_info w trace now :
  keeps_config (get_project_info w trace now).
Proof.
  unfold get_project_info.
  destruct (file_line_search trace) as [[g1 g2]|]; [|apply keeps_config_ret].
  apply keeps_config_bind; [apply keeps_config_find_vhost|]. intros found.
  apply keeps_config_bind.
  { unfold resolve_root.
    apply keeps_config_bind; [intros st; reflexivity|]. intros st0.
    destruct (cache_get _ _ _); [apply keeps_config_ret|].
    apply keeps_config_bind.
    - apply keeps_config_try_except; [|apply keeps_config_ret].
      apply keeps_config_bind; [apply keeps_config_external|].
      intros out. apply keeps_config_ret.
    - intros r. apply keeps_config_bind; [intros st; reflexivity|].
      intros _. apply keeps_config_ret. }
  intros root. apply keeps_config_bind.
  { unfold resolve_remote.
    apply keeps_config_bind; [intros st; reflexivity|]. intros st0.
    destruct (cache_get _ _ _); [apply keeps_config_ret|].
    apply keeps_config_bind; [apply keeps_config_external|]. intros out.
    apply keeps_config_bind; [intros st; reflexivity|].
    intros _. apply keeps_config_ret. }
  intros remote. apply keeps_config_bind.
  { unfold resolve_blame.
    apply keeps_config_bind; [apply keeps_config_get_git_blame|]. intros b.
    apply keeps_config_bind; [intros st; reflexivity|]. intros _.
    apply keeps_config_bind; [intros st; reflexivity|]. intros st0.
    destruct (cache_get _ _ _); [apply keeps_config_ret|].
    apply keeps_config_bind; [apply keeps_config_get_git_blame|]. intros b'.
    apply keeps_config_bind; [intros st; reflexivity|]. intros _.
    apply keeps_config_ret. }
  intros b. apply keeps_config_ret.
Qed.

Lemma send_to_n8n_keeps_config w error_trace now st :
  config (snd (send_to_n8n w error_trace now st)) = config st.
Proof.
  revert st. change (keeps_config (send_to_n8n w error_trace now)).
  unfold send_to_n8n.
  apply keeps_config_bind; [intros st; reflexivity|]. intros st0.
  destruct (n8n_url (config st0)) as [url|]; [|apply keeps_config_ret].
  destruct (String.eqb url ""); [apply keeps_config_ret|].
  apply keeps_config_try_except; [|apply keeps_config_ret].
  apply keeps_config_bind; [apply keeps_config_get_project_info|].
  intros d. apply keeps_config_external.
Qed.

(** ** run and the configuration *)



(** X16. A reload that fails changes nothing, not even the time of the
    last load: the trace is handled under the old configuration, and every
    later trace attempts the reload again. *)
Theorem failed_reload_is_retried :
  forall (w : world) (svc : service) (a : arrival) (e : exn) (svc' : service),
    config_needs_reload svc (checked_at a) = true ->
    config_file a = Raise e ->
    run_step w svc a = Return svc' ->
    config (core svc') = config (core svc) /\
    last_config_load_time svc' = last_config_load_time svc /\
    forall later, (checked_at a <= later)%Q ->
                  config_needs_reload svc' later = true.
Proof.
  intros w svc a e svc' Hn Hf Hr. unfold run_step in Hr.
  rewrite Hn, Hf in Hr. simpl in Hr.
  assert (Hsame : config (core svc') = config (core svc) /\
                  reload_interval svc' = reload_interval svc /\
                  last_config_load_time svc' = last_config_load_time svc).
  { destruct (negb (sending_enabled (config (core svc)))).
    - inversion Hr; subst. auto.
    - pose proof (send_to_n8n_keeps_config w (error_trace a) (cache_time a)
                    (core svc)) as Hc.
      destruct (send_to_n8n w (error_trace a) (cache_time a) (core svc))
        as [[[]|e'] st]; [|discriminate].
      inversion Hr; subst. simpl in *. auto. }
  destruct Hsame as (Hc & Hi & Hl). split; [assumption|]. split; [assumption|].
  intros later Hle. unfold config_needs_reload in *. rewrite Hi, Hl.
  apply Qle_bool_iff. apply Qle_bool_iff in Hn. lra.
Qed.

Lemma failed_reload_is_retried_witness :
  config (core disabled_service) = config (core disabled_service) /\
  last_config_load_time disabled_service
    = last_config_load_time disabled_service /\
  forall later, (125 <= later)%Q ->
                config_needs_reload disabled_service later = true.
Proof.
  apply (failed_reload_is_retried sample_world disabled_service
           {| error_trace := sample_trace "3"; checked_at := 125;
              config_file := Raise OSError; loaded_at := 125;
              cache_time := 25 |} OSError disabled_service).
  - reflexivity.
  - reflexivity.
  - reflexivity.
Defined.





